(** * Razumova crossbridge model (L11): kinetic right-hand side and k_dev

    Shallow embedding of the code cells of
    [L11/Razumova_Solutions-2000-PART1.ipynb] and of the compiled
    [L11_widgets] module ([ReactionWidget]).

    Numbers are modelled as mathematical reals.  The ODE integrator and the
    plotting calls are external collaborators: the integrator is a parameter
    of the widget model, and a trajectory "obtained by integrating" is any
    differentiable solution of the system defined by [rhs]. *)

From Stdlib Require Import String Reals Lra Lia List ZArith.
Import ListNotations.
Open Scope R_scope.

(** * Part I: the program *)

(** ** Python outcomes *)

(** The exception classes that matter for these cells. *)
Inductive exn : Type :=
| IndexError
| ValueError
| ZeroDivisionError.

(** Outcome of running a piece of Python.  [OutOfFuel] belongs to the model
    only: it is what a bounded unrolling of a [while] loop answers when the
    bound is too small. *)
Inductive pyresult (A : Type) : Type :=
| Return (a : A)
| Raise (err : exn)
| OutOfFuel.

Arguments Return {A} a.
Arguments Raise {A} err.
Arguments OutOfFuel {A}.

Definition pybind {A B : Type} (c : pyresult A) (k : A -> pyresult B)
  : pyresult B :=
  match c with
  | Return a => k a
  | Raise err => Raise err
  | OutOfFuel => OutOfFuel
  end.

Notation "x <-- c1 ;; c2" := (pybind c1 (fun x => c2))
  (at level 61, c1 at next level, right associativity).

(** ** Model parameters *)

(** [params = (R_T, k_on, k_off, f, f_prime, h, h_prime, g)]: the tuple is
    built positionally and handed to [rhs] positionally by the integrator. *)
Record params : Type := Params {
  R_T : R;
  k_on : R;
  k_off : R;
  f : R;
  f_prime : R;
  h : R;
  h_prime : R;
  g : R
}.

(** The three assignments in the body of [rhs]. *)
Definition dD_dt (p : params) (D A_1 A_2 : R) : R :=
  k_on p * (R_T p - D - A_1 - A_2) + f_prime p * A_1 + g p * A_2
  - (k_off p + f p) * D.

Definition dA1_dt (p : params) (D A_1 A_2 : R) : R :=
  f p * D + h_prime p * A_2 - (f_prime p + h p) * A_1.

Definition dA2_dt (p : params) (D A_1 A_2 : R) : R :=
  h p * A_1 - (h_prime p + g p) * A_2.

(** Occupancy of the fourth state, never stored: the sub-expression
    [(R_T - D - A_1 - A_2)] of [dD_dt]. *)
Definition R_off (p : params) (D A_1 A_2 : R) : R :=
  R_T p - D - A_1 - A_2.

(** Net mass-action flux into [R_off] in the scheme [R_off <-> D]
    (rates [k_on] out of [R_off], [k_off] back into it). *)
Definition dRoff_dt (p : params) (D A_1 A_2 : R) : R :=
  k_off p * D - k_on p * R_off p D A_1 A_2.

(** ** Object store

    The integrator calls [rhs(y, t, *params)] with [y] a mutable sequence
    object.  Sequence objects live in a store and are named by address; the
    scalar arguments are immutable floats and are passed by value. *)

Definition addr : Type := nat.
Definition heap : Type := list (list R).

Definition M (A : Type) : Type := heap -> pyresult A * heap.

Definition ret {A : Type} (a : A) : M A := fun hp => (Return a, hp).

Definition raise {A : Type} (err : exn) : M A := fun hp => (Raise err, hp).

Definition bind {A B : Type} (c : M A) (k : A -> M B) : M B :=
  fun hp =>
    match c hp with
    | (Return a, hp') => k a hp'
    | (Raise err, hp') => (Raise err, hp')
    | (OutOfFuel, hp') => (OutOfFuel, hp')
    end.

Notation "x <- c1 ;; c2" := (bind c1 (fun x => c2))
  (at level 61, c1 at next level, right associativity).

(** Reading the elements of the sequence at an address (an address always
    names an object; the model answers [ValueError] for one that does
    not). *)
Definition load (a : addr) : M (list R) :=
  fun hp =>
    match nth_error hp a with
    | Some v => (Return v, hp)
    | None => (Raise ValueError, hp)
    end.

(** A list display [[x, y, z]] builds a fresh object. *)
Definition alloc (v : list R) : M addr :=
  fun hp => (Return (length hp), hp ++ [v]).

(** [D, A_1, A_2 = y]: unpacking needs exactly three elements. *)
Definition unpack3 (v : list R) : M (R * R * R) :=
  match v with
  | [a; b; c] => ret (a, b, c)
  | _ => raise ValueError
  end.

(** [def rhs(y, t, R_T, k_on, k_off, f, f_prime, h, h_prime, g)] of the
    notebook. *)
Definition rhs (y : addr) (t : R) (p : params) : M addr :=
  v <- load y ;;
  st <- unpack3 v ;;
  let '(D, A_1, A_2) := st in
  alloc [dD_dt p D A_1 A_2; dA1_dt p D A_1 A_2; dA2_dt p D A_1 A_2].

(** What a caller can read back from a run: the elements of the returned
    object, or the exception. *)
Definition returned_value (run : pyresult addr * heap)
  : pyresult (list R) :=
  match fst run with
  | Return a =>
      match nth_error (snd run) a with
      | Some v => Return v
      | None => Raise ValueError
      end
  | Raise err => Raise err
  | OutOfFuel => OutOfFuel
  end.

(** The value [rhs] computes from the contents of its first argument. *)
Definition rhs_value (p : params) (contents : option (list R))
  : pyresult (list R) :=
  match contents with
  | Some [D; A_1; A_2] =>
      Return [dD_dt p D A_1 A_2; dA1_dt p D A_1 A_2; dA2_dt p D A_1 A_2]
  | _ => Raise ValueError
  end.

(** ** numpy arrays and float64 results *)

(** Result of a float64 true division: dividing by zero does not raise, it
    yields an infinity (or nan for [0/0]) and only emits a warning. *)
Inductive float64 : Type :=
| Finite (x : R)
| PosInf
| NegInf
| NaN.

Definition true_divide (a b : R) : float64 :=
  if Req_dec_T b 0 then
    if Rlt_dec 0 a then PosInf
    else if Rlt_dec a 0 then NegInf
    else NaN
  else Finite (a / b).

(** [len(a)] as a Python integer. *)
Definition len (a : list R) : Z := Z.of_nat (length a).

(** [a[i]] on a one-dimensional array: a negative index counts from the
    end, anything outside [-len, len) raises [IndexError]. *)
Definition getitem (a : list R) (i : Z) : pyresult R :=
  let j := if (i <? 0)%Z then (i + len a)%Z else i in
  if andb (0 <=? j)%Z (j <? len a)%Z then
    match nth_error a (Z.to_nat j) with
    | Some x => Return x
    | None => Raise IndexError
    end
  else Raise IndexError.

(** [math.e], also written [np.exp(1)] in the widget. *)
Definition e : R := exp 1.

(** ** The k_dev cell *)

(** [while A_2[index] < f_half: index += 1], unrolled at most [fuel]
    times; the answer is the final value of [index]. *)
Fixpoint while_loop (fuel : nat) (A_2 : list R) (f_half : R) (index : Z)
  : pyresult Z :=
  match fuel with
  | O => OutOfFuel
  | S fuel' =>
      a <-- getitem A_2 index ;;
      if Rlt_dec a f_half
      then while_loop fuel' A_2 f_half (index + 1)%Z
      else Return index
  end.

(** The cell computing [ktr] from the arrays [time] and [A_2]. *)
Definition k_dev (time A_2 : list R) : pyresult float64 :=
  f_max <-- getitem A_2 (len A_2 - 1)%Z ;;
  let f_half := (1 - (1 / e)) * f_max in
  let index := 0%Z in
  index <-- while_loop (S (length A_2)) A_2 f_half index ;;
  t_half <-- getitem time index ;;
  let ktr := true_divide 1 t_half in
  Return ktr.

(** [first_crossing a c i]: [i] is the first index of [a] whose value is
    not less than [c]. *)
Definition first_crossing (a : list R) (c : R) (i : nat) : Prop :=
  (exists x, nth_error a i = Some x /\ c <= x) /\
  (forall j y, (j < i)%nat -> nth_error a j = Some y -> y < c).

(** ** numpy helpers used by the widget *)

(** [np.linspace(start, stop, num)]: [num] evenly spaced samples, both end
    points included. *)
Definition linspace (start stop : R) (num : nat) : list R :=
  map (fun i => start + INR i * ((stop - start) / INR (num - 1)))
      (seq 0 num).

(** [np.hsplit(solutions, 3)] on an array with one row per sample and the
    three state variables as columns. *)
Definition hsplit3 (solutions : list (R * R * R))
  : list R * list R * list R :=
  (map (fun row => fst (fst row)) solutions,
   map (fun row => snd (fst row)) solutions,
   map (fun row => snd row) solutions).

(** ** The widget class *)

Module ReactionWidget.

(** [ReactionWidget.rhs(self, y, t, R_T, ..., g)]: the same three
    assignments as the notebook's [rhs]; [self] is not used. *)
Definition rhs (y : addr) (t : R) (p : params) : M addr :=
  v <- load y ;;
  st <- unpack3 v ;;
  let '(D, A_1, A_2) := st in
  let dD_dt :=
    k_on p * (R_T p - D - A_1 - A_2) + f_prime p * A_1 + g p * A_2
    - (k_off p + f p) * D in
  let dA1_dt := f p * D + h_prime p * A_2 - (f_prime p + h p) * A_1 in
  let dA2_dt := h p * A_1 - (h_prime p + g p) * A_2 in
  alloc [dD_dt; dA1_dt; dA2_dt].

(** What one call of [solve_and_plot] shows: the curves handed to
    [plt.plot] (abscissas, ordinates), in call order, and the outcome of the
    k_dev computation whose value is printed last. *)
Record shown : Type := Shown {
  curves : list (list R * list R);
  printed : pyresult float64
}.

Section Solve.

(** The external integrator [odeint(func, y0, t, args)]; it answers one row
    per requested time. *)
Variable odeint :
  (addr -> R -> params -> M addr) -> R * R * R -> list R -> params ->
  list (R * R * R).

(** [solve_and_plot(self, k_on, f, h, g)]. *)
Definition solve_and_plot (k_on f h g : R) : shown :=
  let R_T := 1 in
  let k_off := 50 in
  let f_prime := 400 in
  let h_prime := 6 in
  let time := linspace 0 10 5000 in
  let params := Params R_T k_on k_off f f_prime h h_prime g in
  let initial_condition := (0, 0, 0) in
  let solutions := odeint rhs initial_condition time params in
  let '(D, A_1, A_2) := hsplit3 solutions in
  Shown [(time, D); (time, A_1); (time, A_2); (time, A_2)]
    (f_max <-- getitem A_2 (len A_2 - 1)%Z ;;
     let f_half := (1 - 1 / exp 1) * f_max in
     let index := 0%Z in
     index <-- while_loop (S (length A_2)) A_2 f_half index ;;
     t_half <-- getitem time index ;;
     let ktr := true_divide 1 t_half in
     Return ktr).

(** [display(self)]: [interact] is given one slider per keyword; the
    keywords, in order. *)
Definition display_keywords : list string :=
  ["k_on"; "f"; "h"; "g"]%string.

(** Each slider change re-runs [solve_and_plot] with the current values
    bound to the parameters of the same names. *)
Definition interact (values : string -> R) : shown :=
  solve_and_plot (values "k_on"%string) (values "f"%string)
                 (values "h"%string) (values "g"%string).

End Solve.

End ReactionWidget.

(** An integrator stand-in that answers a single row echoing two of the
    arguments it was given and the number of requested times. *)
Definition echo_odeint
           (func : addr -> R -> params -> M addr) (y0 : R * R * R)
           (t : list R) (args : params) : list (R * R * R) :=
  [(k_off args, f args, INR (length t))].

(** The pipeline as the specification words it: sliders for [k_on],
    [k_off], [h] and [g], [f = 50] fixed, 1000 samples. *)
Definition solve_and_plot_as_specified
           (odeint : (addr -> R -> params -> M addr) -> R * R * R ->
                     list R -> params -> list (R * R * R))
           (k_on k_off h g : R) : ReactionWidget.shown :=
  let time := linspace 0 10 1000 in
  let solutions :=
    odeint ReactionWidget.rhs (0, 0, 0) time
           (Params 1 k_on k_off 50 400 h 6 g) in
  let '(D, A_1, A_2) := hsplit3 solutions in
  ReactionWidget.Shown
    [(time, D); (time, A_1); (time, A_2); (time, A_2)]
    (k_dev time A_2).

(** ** Notebook constants *)

(** The initial condition and the constants of the second code cell. *)
Definition y_0 : R * R * R := (0, 0, 0).

Definition notebook_params : params := Params 1 400 50 50 400 8 6 4.

(** The steady state of the notebook's parameter set. *)
Definition steady_D : R := 1008 / 1359.
Definition steady_A1 : R := 125 / 1359.
Definition steady_A2 : R := 100 / 1359.

(** ** Trajectories *)

(** A trajectory, as three functions of time, solves the model when, from
    time 0 on, each component has the derivative [rhs] returns for the
    current state. *)
Definition solves (p : params) (D A_1 A_2 : R -> R) : Prop :=
  forall t : R,
    0 <= t ->
    derivable_pt_lim D t (dD_dt p (D t) (A_1 t) (A_2 t)) /\
    derivable_pt_lim A_1 t (dA1_dt p (D t) (A_1 t) (A_2 t)) /\
    derivable_pt_lim A_2 t (dA2_dt p (D t) (A_1 t) (A_2 t)).

(** A physically valid state: occupancies between 0 and the total. *)
Definition valid_state (p : params) (D A_1 A_2 : R) : Prop :=
  0 <= D /\ 0 <= A_1 /\ 0 <= A_2 /\ D + A_1 + A_2 <= R_T p.

(** All seven transition rates strictly positive. *)
Definition positive_rates (p : params) : Prop :=
  0 < k_on p /\ 0 < k_off p /\ 0 < f p /\ 0 < f_prime p /\
  0 < h p /\ 0 < h_prime p /\ 0 < g p.

(** The same rate constants with no sites at all: the linear part of the
    model. *)
Definition homogeneous (p : params) : params :=
  Params 0 (k_on p) (k_off p) (f p) (f_prime p) (h p) (h_prime p) (g p).

(** A weighted sum of squares of the three rates. *)
Definition rate_energy (x y z : R) : R :=
  1 * (x * x) + 10 * (y * y) + 100 * (z * z).

(** The rates along a trajectory. *)
Definition energy_along (p : params) (D A_1 A_2 : R -> R) (s : R) : R :=
  rate_energy (dD_dt p (D s) (A_1 s) (A_2 s))
              (dA1_dt p (D s) (A_1 s) (A_2 s))
              (dA2_dt p (D s) (A_1 s) (A_2 s)).

(** Unnormalised stationary weights of the four states. *)
Definition cycle_weight (p : params) : R :=
  f_prime p * h_prime p + f_prime p * g p + h p * g p.
Definition weight_Roff (p : params) : R := k_off p * cycle_weight p.
Definition weight_D (p : params) : R := k_on p * cycle_weight p.
Definition weight_A1 (p : params) : R := k_on p * f p * (h_prime p + g p).
Definition weight_A2 (p : params) : R := k_on p * f p * h p.
Definition weight_total (p : params) : R :=
  weight_Roff p + weight_D p + weight_A1 p + weight_A2 p.

(** The steady state: the total [R_T] shared out by weight. *)
Definition steady_state_D (p : params) : R :=
  R_T p * weight_D p / weight_total p.
Definition steady_state_A1 (p : params) : R :=
  R_T p * weight_A1 p / weight_total p.
Definition steady_state_A2 (p : params) : R :=
  R_T p * weight_A2 p / weight_total p.

(** A rate at which deviations from the steady state die out. *)
Definition decay_rate (p : params) : R :=
  Rmin (k_on p)
       (Rmin ((f_prime p * h_prime p + f_prime p * g p + h p * g p / 2)
              / (h_prime p + g p + 2 * h p))
             ((h_prime p + g p / 2) / 2)).

(** Weighted squared deviation of the four occupancies from the steady
    state, as a function of the deviations of the three stored ones. *)
Definition deviation_energy (p : params) (eD e1 e2 : R) : R :=
  / weight_Roff p * ((eD + e1 + e2) * (eD + e1 + e2))
  + / weight_D p * (eD * eD)
  + / weight_A1 p * (e1 * e1)
  + / weight_A2 p * (e2 * e2).

(** The deviation energy along a trajectory. *)
Definition deviation_energy_along
           (p : params) (D A_1 A_2 : R -> R) (r : R) : R :=
  deviation_energy p (D r - steady_state_D p) (A_1 r - steady_state_A1 p)
                   (A_2 r - steady_state_A2 p).

(** A parameter set whose solution from the zero state has a closed
    form. *)
Definition example_params : params := Params 1 1 2 1 1 1 1 1.

Definition example_D (t : R) : R := 1 / 4 - exp (-4 * t) / 4.

Definition example_A1 (t : R) : R :=
  1 / 6 - exp (-1 * t) / 6 - exp (-3 * t) / 6 + exp (-4 * t) / 6.

Definition example_A2 (t : R) : R :=
  1 / 12 - exp (-1 * t) / 6 + exp (-3 * t) / 6 - exp (-4 * t) / 12.

(** ** The notebook's run (L11)

    The cell that builds the time grid, calls the integrator with the
    notebook's constants and splits the answer, followed by the k_dev
    cell. *)

Module Notebook.

Section Run.

(** The external integrator [odeint(func, y0, t, args)]. *)
Variable odeint :
  (addr -> R -> params -> M addr) -> R * R * R -> list R -> params ->
  list (R * R * R).

(** [time = np.linspace(0, 10, 5000)]. *)
Definition time : list R := linspace 0 10 5000.

(** [solutions = odeint(rhs, y_0, time, params)]. *)
Definition solutions : list (R * R * R) :=
  odeint rhs y_0 time notebook_params.

(** [D, A_1, A_2 = np.hsplit(solutions, 3)] and the k_dev cell: the value
    bound to [ktr]. *)
Definition ktr : pyresult float64 :=
  let '(D, A_1, A_2) := hsplit3 solutions in
  k_dev time A_2.

End Run.

End Notebook.

(** An integrator stand-in whose third column is the requested time
    itself. *)
Definition ramp_odeint
           (func : addr -> R -> params -> M addr) (y0 : R * R * R)
           (t : list R) (args : params) : list (R * R * R) :=
  map (fun s => (0, 0, s)) t.

(** ** The FitzHugh-Nagumo notebook (L15)

    The finite-element solve is external; what the notebook itself decides
    is when a boundary condition or a stimulus is applied, and the schedule
    of the time loop. *)

Module FitzhughNagumo.

(** [DirichletBC(ME.sub(0), Constant(value), subdomain)] with the subdomain
    ["near(x[0], 0) && on_boundary"]: [u = value] on the left edge. *)
Inductive DirichletBC : Type :=
| DirichletBC_left_edge (value : R).

(** The source term handed to the solver: [Constant(c)] or an instance of
    the local class [Stimulus]. *)
Inductive expression : Type :=
| Constant (c : R)
| Stimulus (stimamp : R).

(** [Stimulus.eval(self, value, x)]: the value at the point [x]. *)
Definition eval (s : expression) (x : R * R) : R :=
  match s with
  | Constant c => c
  | Stimulus stimamp =>
      if Rlt_dec (fst x) (125 / 100) then
        if Rlt_dec (snd x) (125 / 100) then stimamp else 0
      else 0
  end.

(** [def BC_U_and_stim(t)]. *)
Definition BC_U_and_stim (t : R) : list DirichletBC * expression :=
  let start_stim_end_time := 6 in
  let stimstarttime := 150 in
  let stimduration := 6 in
  let stimamp := 8 / 10 in
  if Rlt_dec t start_stim_end_time then
    ([DirichletBC_left_edge 1], Constant 0)
  else if Rgt_dec t stimstarttime then
    if Rlt_dec t (stimstarttime + stimduration) then
      ([], Stimulus stimamp)
    else ([], Constant 0)
  else ([], Constant 0).

(** [U_sol]: a dictionary from step number to (time, solution). *)
Definition dict (V : Type) : Type := list (Z * V).

(** [d[k] = v]: replaces the entry of an existing key, appends a new one. *)
Fixpoint dict_set {V : Type} (d : dict V) (k : Z) (v : V) : dict V :=
  match d with
  | [] => [(k, v)]
  | (k', v') :: d' =>
      if Z.eq_dec k' k then (k, v) :: d' else (k', v') :: dict_set d' k v
  end.

(** [d[k]]; [None] stands for [KeyError]. *)
Fixpoint dict_get {V : Type} (d : dict V) (k : Z) : option V :=
  match d with
  | [] => None
  | (k', v') :: d' => if Z.eq_dec k' k then Some v' else dict_get d' k
  end.

Definition keys {V : Type} (d : dict V) : list Z := map fst d.

(** [(min(d.keys()), max(d.keys()))], the bounds given to the slider;
    [min] and [max] raise [ValueError] on an empty sequence. *)
Definition slider_bounds {V : Type} (d : dict V) : pyresult (Z * Z) :=
  match keys d with
  | [] => Raise ValueError
  | k :: ks => Return (fold_left Z.min ks k, fold_left Z.max ks k)
  end.

Section Driver.

(** The solution type and the external Newton solve of one time step (taken
    to succeed). *)
Variable state : Type.
Variable newton : state -> list DirichletBC -> expression -> state.

(** [def solve_single_timestep(Up, t)]. *)
Definition solve_single_timestep (Up : state) (t : R) : state :=
  let '(bcs, stim) := BC_U_and_stim t in
  newton Up bcs stim.

(** [while t <= T: t += dt; n += 1; U = solve_single_timestep(U, t);
    U_sol[n] = (t, U.copy())], unrolled at most [fuel] times; the answer is
    the final [(t, n, U, U_sol)]. *)
Fixpoint time_loop (fuel : nat) (dt T : R) (t : R) (n : Z) (U : state)
         (U_sol : dict (R * state))
  : pyresult (R * Z * state * dict (R * state)) :=
  match fuel with
  | O => OutOfFuel
  | S fuel' =>
      if Rle_dec t T then
        let t := t + dt in
        let n := (n + 1)%Z in
        let U := solve_single_timestep U t in
        let U_sol := dict_set U_sol n (t, U) in
        time_loop fuel' dt T t n U U_sol
      else Return (t, n, U, U_sol)
  end.

(** [def plot_solution(n)]: the entry [t, U = U_sol[n]] that is plotted. *)
Definition plot_solution (U_sol : dict (R * state)) (n : Z)
  : option (R * state) :=
  dict_get U_sol n.

(** The solution after [k] steps of length [dt] from [U0]. *)
Fixpoint state_after (dt : R) (U0 : state) (k : nat) : state :=
  match k with
  | O => U0
  | S k' => solve_single_timestep (state_after dt U0 k') (INR k * dt)
  end.

(** The entries of steps [1 .. k], in order. *)
Definition entries (dt : R) (U0 : state) (k : nat) : dict (R * state) :=
  map (fun j => (Z.of_nat j, (INR j * dt, state_after dt U0 j))) (seq 1 k).

End Driver.

End FitzhughNagumo.

(** * Part II: properties *)

(** ** Facts about [e] *)

Lemma e_gt_2 : 2 < e.
Proof.
  unfold e.
  pose proof (exp_ineq1 1 R1_neq_R0) as H.
  lra.
Qed.

Lemma threshold_factor_bounds : 0 < 1 - 1 / e < 1.
Proof.
  pose proof e_gt_2 as He.
  assert (Hinv : 0 < / e) by (apply Rinv_0_lt_compat; lra).
  assert (Hlt : / e < 1).
  { rewrite <- Rinv_1. apply Rinv_lt_contravar; lra. }
  unfold Rdiv. lra.
Qed.

(** ** Indexing *)

Lemma getitem_nat (a : list R) (k : nat) :
  getitem a (Z.of_nat k) =
  match nth_error a k with
  | Some x => Return x
  | None => Raise IndexError
  end.
Proof.
  unfold getitem, len.
  assert (Hneg : (Z.of_nat k <? 0)%Z = false) by (apply Z.ltb_ge; lia).
  rewrite Hneg.
  assert (Hnn : (0 <=? Z.of_nat k)%Z = true) by (apply Z.leb_le; lia).
  rewrite Hnn, Nat2Z.id. simpl.
  destruct (nth_error a k) as [x|] eqn:Hk.
  - assert (Hlt : (k < length a)%nat)
      by (apply nth_error_Some; congruence).
    assert (Hb : (Z.of_nat k <? Z.of_nat (length a))%Z = true)
      by (apply Z.ltb_lt; lia).
    now rewrite Hb.
  - now destruct (Z.of_nat k <? Z.of_nat (length a))%Z.
Qed.

Lemma nth_error_last (a : list R) (d : R) :
  a <> [] -> nth_error a (length a - 1) = Some (last a d).
Proof.
  intros Hne.
  destruct (exists_last Hne) as [a' [x ->]].
  rewrite last_last, length_app. simpl.
  replace (length a' + 1 - 1)%nat with (length a') by lia.
  rewrite nth_error_app2 by lia.
  now rewrite Nat.sub_diag.
Qed.

Lemma getitem_last (a : list R) :
  a <> [] -> getitem a (len a - 1)%Z = Return (last a 0).
Proof.
  intros Hne.
  assert (Hpos : (0 < length a)%nat).
  { destruct a; [congruence | simpl; lia]. }
  unfold len.
  replace (Z.of_nat (length a) - 1)%Z with (Z.of_nat (length a - 1)) by lia.
  rewrite getitem_nat, (nth_error_last a 0 Hne).
  reflexivity.
Qed.

Lemma getitem_empty (i : Z) : getitem [] i = Raise IndexError.
Proof.
  unfold getitem, len. simpl.
  destruct (i <? 0)%Z eqn:Hi.
  - rewrite Z.add_0_r.
    assert (Hb : (0 <=? i)%Z = false) by (apply Z.leb_gt, Z.ltb_lt, Hi).
    now rewrite Hb.
  - destruct (0 <=? i)%Z; simpl; [|reflexivity].
    assert (Hb : (i <? 0)%Z = false) by exact Hi.
    now rewrite Hb.
Qed.

(** ** The scan *)

Lemma first_crossing_unique (a : list R) (c : R) (i j : nat) :
  first_crossing a c i -> first_crossing a c j -> i = j.
Proof.
  intros [[x [Hx Hcx]] Hi] [[y [Hy Hcy]] Hj].
  destruct (Nat.lt_trichotomy i j) as [Hlt | [Heq | Hgt]]; [|exact Heq|].
  - specialize (Hj i x Hlt Hx). lra.
  - specialize (Hi j y Hgt Hy). lra.
Qed.

(** Started at index [k] with more fuel than there are samples left, the
    loop either stops at the first crossing at or after [k], or runs off
    the end because every remaining sample is below the threshold. *)
Lemma while_loop_cases (a : list R) (c : R) :
  forall (n k fuel : nat),
    length a = (k + n)%nat -> (n < fuel)%nat ->
    (exists i x,
        (k <= i < length a)%nat /\ nth_error a i = Some x /\ c <= x /\
        (forall j y, (k <= j < i)%nat -> nth_error a j = Some y -> y < c) /\
        while_loop fuel a c (Z.of_nat k) = Return (Z.of_nat i))
    \/
    ((forall j y, (k <= j)%nat -> nth_error a j = Some y -> y < c) /\
     while_loop fuel a c (Z.of_nat k) = Raise IndexError).
Proof.
  induction n as [|n IH]; intros k fuel Hlen Hfuel.
  - right. destruct fuel as [|fuel]; [lia|].
    assert (Hnone : nth_error a k = None)
      by (apply nth_error_None; lia).
    split.
    + intros j y Hj Hy.
      assert (Hjn : nth_error a j = None) by (apply nth_error_None; lia).
      congruence.
    + simpl. now rewrite getitem_nat, Hnone.
  - destruct fuel as [|fuel]; [lia|].
    destruct (nth_error a k) as [x|] eqn:Hk.
    2:{ apply nth_error_None in Hk. lia. }
    simpl. rewrite getitem_nat, Hk. simpl.
    destruct (Rlt_dec x c) as [Hlt | Hge].
    + replace (Z.of_nat k + 1)%Z with (Z.of_nat (S k)) by lia.
      destruct (IH (S k) fuel ltac:(lia) ltac:(lia))
        as [[i [z [Hi [Hz [Hcz [Hbelow Hrun]]]]]] | [Hbelow Hrun]].
      * left. exists i, z. repeat split; try lia; try assumption.
        intros j y Hj Hy.
        destruct (Nat.eq_dec j k) as [-> | Hjk].
        -- congruence.
        -- apply (Hbelow j y); [lia | assumption].
      * right. split; [|assumption].
        intros j y Hj Hy.
        destruct (Nat.eq_dec j k) as [-> | Hjk].
        -- congruence.
        -- apply (Hbelow j y); [lia | assumption].
    + left. exists k, x. repeat split; try lia; try assumption.
      apply Rnot_lt_le, Hge.
Qed.

(** With the fuel the cell's model supplies, the scan always has an
    answer. *)
Lemma while_loop_enough_fuel (a : list R) (c : R) :
  while_loop (S (length a)) a c 0 <> OutOfFuel.
Proof.
  destruct (while_loop_cases a c (length a) 0 (S (length a))
              ltac:(lia) ltac:(lia))
    as [[i [x [_ [_ [_ [_ Hrun]]]]]] | [_ Hrun]];
    change (Z.of_nat 0) with 0%Z in Hrun; rewrite Hrun; discriminate.
Qed.

Lemma while_loop_first_crossing (a : list R) (c : R) (i : nat) :
  first_crossing a c i ->
  while_loop (S (length a)) a c 0 = Return (Z.of_nat i).
Proof.
  intros Hfirst.
  destruct (while_loop_cases a c (length a) 0 (S (length a))
              ltac:(lia) ltac:(lia))
    as [[i' [x [Hi' [Hx [Hcx [Hbelow Hrun]]]]]] | [Hbelow Hrun]];
    change (Z.of_nat 0) with 0%Z in Hrun.
  - assert (Hfirst' : first_crossing a c i').
    { split; [exists x; auto|].
      intros j y Hj Hy. apply (Hbelow j y); [lia | assumption]. }
    now rewrite (first_crossing_unique a c i i' Hfirst Hfirst').
  - destruct Hfirst as [[x [Hx Hcx]] _].
    specialize (Hbelow i x ltac:(lia) Hx). lra.
Qed.

Lemma while_loop_never_reached (a : list R) (c : R) :
  (forall x, In x a -> x < c) ->
  while_loop (S (length a)) a c 0 = Raise IndexError.
Proof.
  intros Hall.
  destruct (while_loop_cases a c (length a) 0 (S (length a))
              ltac:(lia) ltac:(lia))
    as [[i [x [_ [Hx [Hcx _]]]]] | [_ Hrun]].
  - apply nth_error_In in Hx. specialize (Hall x Hx). lra.
  - exact Hrun.
Qed.

(** ** float64 division *)

Lemma true_divide_nonzero (a b : R) :
  b <> 0 -> true_divide a b = Finite (a / b).
Proof.
  intros Hb. unfold true_divide.
  destruct (Req_dec_T b 0) as [Heq | _]; [contradiction | reflexivity].
Qed.

Lemma true_divide_one_by_zero : true_divide 1 0 = PosInf.
Proof.
  unfold true_divide.
  destruct (Req_dec_T 0 0) as [_ | Hne]; [|now elim Hne].
  destruct (Rlt_dec 0 1) as [_ | Hn]; [reflexivity | lra].
Qed.

(** ** The k_dev cell, case by case *)

Lemma k_dev_at_first_crossing (time A_2 : list R) (i : nat) :
  A_2 <> [] ->
  first_crossing A_2 ((1 - 1 / e) * last A_2 0) i ->
  k_dev time A_2 =
  match nth_error time i with
  | Some t_half => Return (true_divide 1 t_half)
  | None => Raise IndexError
  end.
Proof.
  intros Hne Hfirst. unfold k_dev.
  rewrite (getitem_last A_2 Hne). cbn [pybind].
  rewrite (while_loop_first_crossing _ _ i Hfirst). cbn [pybind].
  rewrite getitem_nat.
  now destruct (nth_error time i).
Qed.

Lemma k_dev_never_reached (time A_2 : list R) :
  A_2 <> [] ->
  (forall x, In x A_2 -> x < (1 - 1 / e) * last A_2 0) ->
  k_dev time A_2 = Raise IndexError.
Proof.
  intros Hne Hall. unfold k_dev.
  rewrite (getitem_last A_2 Hne). cbn [pybind].
  now rewrite (while_loop_never_reached _ _ Hall).
Qed.

Lemma last_In (a : list R) (d : R) : a <> [] -> In (last a d) a.
Proof.
  intros Hne.
  destruct (exists_last Hne) as [a' [x ->]].
  rewrite last_last. apply in_or_app. right. now left.
Qed.

(** A non-negative final value is itself at or above the threshold. *)
Lemma threshold_le_final (x : R) : 0 <= x -> (1 - 1 / e) * x <= x.
Proof.
  intros Hx. pose proof threshold_factor_bounds as [Hlo Hhi]. nra.
Qed.

Lemma final_below_threshold_negative (x : R) :
  x < (1 - 1 / e) * x -> x < 0.
Proof.
  intros Hx. pose proof threshold_factor_bounds as [Hlo Hhi]. nra.
Qed.

(** On a non-empty trajectory the cell always has an outcome: the
    reciprocal of the time at the first crossing (or [IndexError] when
    [time] is too short), or [IndexError] when there is no crossing. *)
Lemma k_dev_outcomes (time A_2 : list R) :
  A_2 <> [] ->
  let f_half := (1 - 1 / e) * last A_2 0 in
  (exists i,
      first_crossing A_2 f_half i /\
      k_dev time A_2 =
      match nth_error time i with
      | Some t_half => Return (true_divide 1 t_half)
      | None => Raise IndexError
      end)
  \/ ((forall x, In x A_2 -> x < f_half) /\
      k_dev time A_2 = Raise IndexError).
Proof.
  intros Hne f_half.
  destruct (while_loop_cases A_2 f_half (length A_2) 0 (S (length A_2))
              ltac:(lia) ltac:(lia))
    as [[i [x [Hi [Hx [Hcx [Hbelow _]]]]]] | [Hbelow _]].
  - left. exists i.
    assert (Hfirst : first_crossing A_2 f_half i).
    { split; [exists x; auto|].
      intros j y Hj Hy. apply (Hbelow j y); [lia | assumption]. }
    split; [exact Hfirst|].
    now apply k_dev_at_first_crossing.
  - right.
    assert (Hall : forall x, In x A_2 -> x < f_half).
    { intros x Hin. apply In_nth_error in Hin as [j Hj].
      apply (Hbelow j x); [lia | assumption]. }
    split; [exact Hall|].
    now apply k_dev_never_reached.
Qed.

(** ** The derivative function *)

Lemma rhs_run (hp : heap) (y : addr) (t D A_1 A_2 : R) (p : params) :
  nth_error hp y = Some [D; A_1; A_2] ->
  rhs y t p hp =
  (Return (length hp),
   hp ++ [[dD_dt p D A_1 A_2; dA1_dt p D A_1 A_2; dA2_dt p D A_1 A_2]]).
Proof.
  intros Hy. unfold rhs, bind, load. now rewrite Hy.
Qed.

Lemma widget_rhs_agrees (hp : heap) (y : addr) (t : R) (p : params) :
  ReactionWidget.rhs y t p hp = rhs y t p hp.
Proof.
  unfold ReactionWidget.rhs, rhs, bind, load.
  destruct (nth_error hp y) as [v|]; [|reflexivity].
  destruct v as [|a [|b [|c [|d v]]]]; reflexivity.
Qed.

(** C1: for every real state [(D, A_1, A_2)] stored at [y] and every
    parameter tuple, without any check on the values, the derivative
    function (the notebook's and the widget's) returns a fresh list holding
    exactly
    [k_on*(R_T - D - A_1 - A_2) + f_prime*A_1 + g*A_2 - (k_off + f)*D],
    [f*D + h_prime*A_2 - (f_prime + h)*A_1] and
    [h*A_1 - (h_prime + g)*A_2]. *)
Theorem rhs_returns_derivatives :
  forall (hp : heap) (y : addr) (t D A_1 A_2 : R) (p : params),
    nth_error hp y = Some [D; A_1; A_2] ->
    let out :=
      [k_on p * (R_T p - D - A_1 - A_2) + f_prime p * A_1 + g p * A_2
       - (k_off p + f p) * D;
       f p * D + h_prime p * A_2 - (f_prime p + h p) * A_1;
       h p * A_1 - (h_prime p + g p) * A_2] in
    rhs y t p hp = (Return (length hp), hp ++ [out]) /\
    ReactionWidget.rhs y t p hp = (Return (length hp), hp ++ [out]) /\
    nth_error (hp ++ [out]) (length hp) = Some out.
Proof.
  intros hp y t D A_1 A_2 p Hy out.
  split; [|split].
  - exact (rhs_run hp y t D A_1 A_2 p Hy).
  - rewrite widget_rhs_agrees. exact (rhs_run hp y t D A_1 A_2 p Hy).
  - rewrite nth_error_app2 by lia. now rewrite Nat.sub_diag.
Qed.

Lemma rhs_returns_derivatives_witness :
  nth_error [[1; 2; 3]] 0 = Some [1; 2; 3] /\
  rhs 0%nat 0 notebook_params [[1; 2; 3]] =
  (Return 1%nat,
   [[1; 2; 3];
    [400 * (1 - 1 - 2 - 3) + 400 * 2 + 4 * 3 - (50 + 50) * 1;
     50 * 1 + 6 * 3 - (400 + 8) * 2;
     8 * 2 - (6 + 4) * 3]]).
Proof.
  split; [reflexivity|].
  exact (proj1 (rhs_returns_derivatives [[1; 2; 3]] 0%nat 0 1 2 3
                  notebook_params eq_refl)).
Defined.

(** ** Purity of the derivative function *)

Lemma rhs_store (hp : heap) (y : addr) (t : R) (p : params) :
  snd (rhs y t p hp) = hp \/ exists v, snd (rhs y t p hp) = hp ++ [v].
Proof.
  unfold rhs, bind, load.
  destruct (nth_error hp y) as [v|]; [|now left].
  destruct v as [|a [|b [|c [|d v]]]]; try (now left).
  right. eexists. reflexivity.
Qed.

Lemma rhs_frame (hp : heap) (y : addr) (t : R) (p : params) :
  forall a v, nth_error hp a = Some v ->
              nth_error (snd (rhs y t p hp)) a = Some v.
Proof.
  intros a v Ha.
  destruct (rhs_store hp y t p) as [-> | [w ->]]; [exact Ha|].
  rewrite nth_error_app1; [exact Ha|].
  apply nth_error_Some. congruence.
Qed.

Lemma rhs_returned_value (hp : heap) (y : addr) (t : R) (p : params) :
  returned_value (rhs y t p hp) = rhs_value p (nth_error hp y).
Proof.
  unfold returned_value, rhs, bind, load, rhs_value.
  destruct (nth_error hp y) as [v|]; [|reflexivity].
  destruct v as [|a [|b [|c [|d v]]]]; try reflexivity.
  cbn [unpack3 ret alloc fst snd].
  rewrite nth_error_app2 by lia. now rewrite Nat.sub_diag.
Qed.

Lemma rhs_argument_kept (hp : heap) (y : addr) (t : R) (p : params) :
  nth_error (snd (rhs y t p hp)) y = nth_error hp y.
Proof.
  destruct (nth_error hp y) as [v|] eqn:Hy.
  - now apply rhs_frame.
  - unfold rhs, bind, load. now rewrite Hy.
Qed.

(** C6: the derivative function is pure and deterministic.  A call leaves
    every object of the store as it was (the state vector included; the
    parameters are immutable scalars), a second call with the same
    arguments, made after the first, returns the same value, and so does any
    call whose state vector has the same contents. *)
Theorem rhs_pure_and_deterministic :
  forall (hp : heap) (y : addr) (t : R) (p : params),
    (forall a v, nth_error hp a = Some v ->
                 nth_error (snd (rhs y t p hp)) a = Some v) /\
    returned_value (rhs y t p (snd (rhs y t p hp)))
    = returned_value (rhs y t p hp) /\
    (forall (hp2 : heap) (y2 : addr),
        nth_error hp2 y2 = nth_error hp y ->
        returned_value (rhs y2 t p hp2) = returned_value (rhs y t p hp)).
Proof.
  intros hp y t p. split; [|split].
  - apply rhs_frame.
  - now rewrite !rhs_returned_value, rhs_argument_kept.
  - intros hp2 y2 Heq. now rewrite !rhs_returned_value, Heq.
Qed.

Lemma rhs_pure_and_deterministic_witness :
  nth_error (snd (rhs 0%nat 0 notebook_params [[1; 2; 3]])) 0
  = Some [1; 2; 3] /\
  returned_value (rhs 1%nat 0 notebook_params [[0; 0; 0]; [1; 2; 3]])
  = returned_value (rhs 0%nat 0 notebook_params [[1; 2; 3]]).
Proof.
  split.
  - exact (proj1 (rhs_pure_and_deterministic [[1; 2; 3]] 0%nat 0
                    notebook_params) 0%nat [1; 2; 3] eq_refl).
  - exact (proj2 (proj2 (rhs_pure_and_deterministic [[1; 2; 3]] 0%nat 0
                           notebook_params))
             [[0; 0; 0]; [1; 2; 3]] 1%nat eq_refl).
Defined.

(** ** k_dev *)

(** C2: on a non-empty trajectory, with [f_max] the final [A_2] sample and
    [f_half = (1 - 1/e) * f_max], if [i] is the first index whose sample is
    not less than [f_half] and [t_half] the sample time at [i], the cell
    reports [1 / t_half] (a float64 division; the real quotient whenever
    [t_half] is not zero). *)
Theorem k_dev_reports_reciprocal_of_first_crossing :
  forall (time A_2 : list R) (i : nat) (t_half : R),
    A_2 <> [] ->
    let f_max := last A_2 0 in
    let f_half := (1 - 1 / e) * f_max in
    first_crossing A_2 f_half i ->
    nth_error time i = Some t_half ->
    k_dev time A_2 = Return (true_divide 1 t_half) /\
    (t_half <> 0 -> k_dev time A_2 = Return (Finite (1 / t_half))).
Proof.
  intros time A_2 i t_half Hne f_max f_half Hfirst Ht.
  assert (Hrun : k_dev time A_2 = Return (true_divide 1 t_half)).
  { rewrite (k_dev_at_first_crossing time A_2 i Hne Hfirst). now rewrite Ht. }
  split; [exact Hrun|].
  intros Hnz. rewrite Hrun. now rewrite true_divide_nonzero.
Qed.

Lemma rising_first_crossing :
  first_crossing [0; 1] ((1 - 1 / e) * last [0; 1] 0) 1.
Proof.
  pose proof threshold_factor_bounds as [Hlo Hhi].
  split.
  - exists 1. split; [reflexivity|]. simpl. lra.
  - intros j y Hj Hy.
    assert (j = 0%nat) by lia. subst j.
    simpl in Hy. injection Hy as <-. simpl. lra.
Qed.

Lemma k_dev_reports_reciprocal_of_first_crossing_witness :
  k_dev [0; 2] [0; 1] = Return (Finite (1 / 2)).
Proof.
  refine (proj2 (k_dev_reports_reciprocal_of_first_crossing
                   [0; 2] [0; 1] 1%nat 2 _ rising_first_crossing eq_refl) _).
  - discriminate.
  - lra.
Defined.

Lemma flat_zero_first_crossing :
  first_crossing [0; 0; 0] ((1 - 1 / e) * last [0; 0; 0] 0) 0.
Proof.
  split.
  - exists 0. split; [reflexivity|]. simpl. lra.
  - intros j y Hj. lia.
Qed.

(** C4, as stated, fails on the flat-zero trajectory: no sample exceeds
    [f_half = 0], yet the first sample already is not less than it, the
    scan stops at index 0 and the cell reports a number ([1] with first
    sample time [1], an infinity with first sample time [0]); nothing is
    raised. *)
Lemma flat_zero_trajectory_does_not_raise :
  (forall x, In x [0; 0; 0] -> x <= (1 - 1 / e) * last [0; 0; 0] 0) /\
  k_dev [1; 2; 3] [0; 0; 0] = Return (Finite (1 / 1)) /\
  k_dev [0; 1; 2] [0; 0; 0] = Return PosInf /\
  (forall err, k_dev [1; 2; 3] [0; 0; 0] <> Raise err) /\
  (forall err, k_dev [0; 1; 2] [0; 0; 0] <> Raise err).
Proof.
  assert (H1 : k_dev [1; 2; 3] [0; 0; 0] = Return (Finite (1 / 1))).
  { rewrite (k_dev_at_first_crossing [1; 2; 3] [0; 0; 0] 0
               ltac:(discriminate)
               flat_zero_first_crossing).
    simpl. rewrite true_divide_nonzero by lra. reflexivity. }
  assert (H0 : k_dev [0; 1; 2] [0; 0; 0] = Return PosInf).
  { rewrite (k_dev_at_first_crossing [0; 1; 2] [0; 0; 0] 0
               ltac:(discriminate)
               flat_zero_first_crossing).
    simpl. now rewrite true_divide_one_by_zero. }
  split; [|repeat split; try assumption].
  - intros x [<- | [<- | [<- | []]]]; simpl; lra.
  - intros err. rewrite H1. discriminate.
  - intros err. rewrite H0. discriminate.
Qed.

(** C4, amended: when every sample of a non-empty trajectory is below
    [f_half], the scan runs off the end and the cell raises the
    out-of-bounds [IndexError]; no number is reported.  Such a trajectory
    has a negative final value. *)
Theorem k_dev_threshold_never_reached_raises :
  forall (time A_2 : list R),
    A_2 <> [] ->
    (forall x, In x A_2 -> x < (1 - 1 / e) * last A_2 0) ->
    k_dev time A_2 = Raise IndexError /\
    (forall v, k_dev time A_2 <> Return v) /\
    last A_2 0 < 0.
Proof.
  intros time A_2 Hne Hall.
  assert (Hrun := k_dev_never_reached time A_2 Hne Hall).
  repeat split.
  - exact Hrun.
  - intros v. rewrite Hrun. discriminate.
  - apply final_below_threshold_negative, Hall, last_In, Hne.
Qed.

Lemma k_dev_threshold_never_reached_raises_witness :
  k_dev [0; 1] [-2; -1] = Raise IndexError.
Proof.
  refine (proj1 (k_dev_threshold_never_reached_raises [0; 1] [-2; -1] _ _)).
  - discriminate.
  - pose proof threshold_factor_bounds as [Hlo Hhi].
    intros x [<- | [<- | []]]; simpl; nra.
Defined.

Lemma early_first_crossing :
  first_crossing [1; 1] ((1 - 1 / e) * last [1; 1] 0) 0.
Proof.
  pose proof threshold_factor_bounds as [Hlo Hhi].
  split.
  - exists 1. split; [reflexivity|]. simpl. lra.
  - intros j y Hj. lia.
Qed.

(** C5, as stated, fails: with the threshold crossed at the first sample
    and [t_half = 0] nothing is raised, the float64 division gives an
    infinity which is reported. *)
Lemma zero_t_half_does_not_raise :
  first_crossing [1; 1] ((1 - 1 / e) * last [1; 1] 0) 0 /\
  nth_error [0; 1] 0 = Some 0 /\
  k_dev [0; 1] [1; 1] = Return PosInf /\
  k_dev [0; 1] [1; 1] <> Raise ZeroDivisionError.
Proof.
  assert (H0 : k_dev [0; 1] [1; 1] = Return PosInf).
  { rewrite (k_dev_at_first_crossing [0; 1] [1; 1] 0 ltac:(discriminate)
               early_first_crossing).
    simpl. now rewrite true_divide_one_by_zero. }
  repeat split; try apply early_first_crossing; try assumption.
  rewrite H0. discriminate.
Qed.

(** C5, amended: when the threshold is crossed at the first sample and that
    sample's time is [0], the cell raises nothing and reports the float64
    infinity [1 / 0]. *)
Theorem k_dev_zero_t_half_reports_infinity :
  forall (time A_2 : list R),
    A_2 <> [] ->
    first_crossing A_2 ((1 - 1 / e) * last A_2 0) 0 ->
    nth_error time 0 = Some 0 ->
    k_dev time A_2 = Return PosInf /\
    (forall err, k_dev time A_2 <> Raise err).
Proof.
  intros time A_2 Hne Hfirst Ht.
  assert (Hrun : k_dev time A_2 = Return PosInf).
  { rewrite (k_dev_at_first_crossing time A_2 0 Hne Hfirst), Ht.
    now rewrite true_divide_one_by_zero. }
  split; [exact Hrun|].
  intros err. rewrite Hrun. discriminate.
Qed.

Lemma k_dev_zero_t_half_reports_infinity_witness :
  k_dev [0; 1] [1; 1] = Return PosInf.
Proof.
  refine (proj1 (k_dev_zero_t_half_reports_infinity [0; 1] [1; 1] _
                   early_first_crossing eq_refl)).
  discriminate.
Defined.

(** C9: on a non-empty [A_2] whose final value is non-negative the scan
    stops at an index inside the array (at the latest the final one, whose
    value is at least [f_half]); the scan can only run off the end when the
    final value is negative. *)
Theorem scan_in_bounds_when_final_nonnegative :
  forall (A_2 : list R),
    A_2 <> [] ->
    let f_max := last A_2 0 in
    let f_half := (1 - 1 / e) * f_max in
    (0 <= f_max ->
     f_half <= f_max /\
     exists i, (i < length A_2)%nat /\
               first_crossing A_2 f_half i /\
               while_loop (S (length A_2)) A_2 f_half 0
               = Return (Z.of_nat i)) /\
    (forall err,
        while_loop (S (length A_2)) A_2 f_half 0 = Raise err ->
        f_max < 0).
Proof.
  intros A_2 Hne f_max f_half.
  destruct (while_loop_cases A_2 f_half (length A_2) 0 (S (length A_2))
              ltac:(lia) ltac:(lia))
    as [[i [x [Hi [Hx [Hcx [Hbelow Hrun]]]]]] | [Hbelow Hrun]];
    change (Z.of_nat 0) with 0%Z in Hrun.
  - split.
    + intros Hpos. split; [apply threshold_le_final, Hpos|].
      exists i. repeat split; try lia; try assumption.
      * exists x. auto.
      * intros j y Hj Hy. apply (Hbelow j y); [lia | assumption].
    + intros err Herr. rewrite Hrun in Herr. discriminate.
  - assert (Hneg : f_max < 0).
    { apply final_below_threshold_negative.
      apply (Hbelow (length A_2 - 1)%nat); [lia|].
      apply nth_error_last, Hne. }
    split.
    + intros Hpos. lra.
    + intros _ _. exact Hneg.
Qed.

Lemma scan_in_bounds_when_final_nonnegative_witness :
  exists i, (i < 2)%nat /\
            first_crossing [0; 1] ((1 - 1 / e) * 1) i /\
            while_loop 3 [0; 1] ((1 - 1 / e) * 1) 0 = Return (Z.of_nat i).
Proof.
  refine (proj2 (proj1 (scan_in_bounds_when_final_nonnegative [0; 1] _) _)).
  - discriminate.
  - simpl. lra.
Defined.

(** ** The widget pipeline *)

Lemma linspace_length (start stop : R) (num : nat) :
  length (linspace start stop num) = num.
Proof.
  unfold linspace. now rewrite length_map, length_seq.
Qed.

Lemma linspace_nth (start stop : R) (num i : nat) :
  (i < num)%nat ->
  nth_error (linspace start stop num) i
  = Some (start + INR i * ((stop - start) / INR (num - 1))).
Proof.
  intros Hi. unfold linspace.
  rewrite nth_error_map, nth_error_seq.
  apply Nat.ltb_lt in Hi. now rewrite Hi.
Qed.

Lemma linspace_first (start stop : R) (num : nat) :
  (0 < num)%nat -> nth_error (linspace start stop num) 0 = Some start.
Proof.
  intros Hnum. rewrite linspace_nth by exact Hnum.
  f_equal. simpl. ring.
Qed.

Lemma linspace_last (start stop : R) (num : nat) :
  (1 < num)%nat ->
  nth_error (linspace start stop num) (num - 1) = Some stop.
Proof.
  intros Hnum. rewrite linspace_nth by lia.
  f_equal. field. apply not_0_INR. lia.
Qed.

Lemma solve_and_plot_unfold
      (odeint : (addr -> R -> params -> M addr) -> R * R * R -> list R ->
                params -> list (R * R * R))
      (k_on f h g : R) :
  ReactionWidget.solve_and_plot odeint k_on f h g =
  let time := linspace 0 10 5000 in
  let solutions :=
    odeint ReactionWidget.rhs (0, 0, 0) time
           (Params 1 k_on 50 f 400 h 6 g) in
  ReactionWidget.Shown
    [(time, map (fun row => fst (fst row)) solutions);
     (time, map (fun row => snd (fst row)) solutions);
     (time, map (fun row => snd row) solutions);
     (time, map (fun row => snd row) solutions)]
    (k_dev time (map (fun row => snd row) solutions)).
Proof. reflexivity. Qed.

(** C10, as stated, fails: the second slider is [f], not [k_off]; with the
    sliders at 400, 7, 8, 4 the integrator receives [k_off = 50] and
    [f = 7], and 5000 sample times rather than 1000. *)
Lemma pipeline_differs_from_specification :
  ReactionWidget.display_keywords
  <> ["k_on"; "k_off"; "h"; "g"]%string /\
  map snd (ReactionWidget.curves
             (ReactionWidget.solve_and_plot echo_odeint 400 7 8 4))
  = [[50]; [7]; [INR 5000]; [INR 5000]] /\
  map snd (ReactionWidget.curves
             (solve_and_plot_as_specified echo_odeint 400 7 8 4))
  = [[7]; [50]; [INR 1000]; [INR 1000]] /\
  ReactionWidget.solve_and_plot echo_odeint 400 7 8 4
  <> solve_and_plot_as_specified echo_odeint 400 7 8 4.
Proof.
  assert (Hcode :
            map snd (ReactionWidget.curves
                       (ReactionWidget.solve_and_plot echo_odeint 400 7 8 4))
            = [[50]; [7]; [INR 5000]; [INR 5000]]).
  { rewrite solve_and_plot_unfold. unfold echo_odeint.
    cbn [map fst snd ReactionWidget.curves k_off f].
    now rewrite linspace_length. }
  assert (Hspec :
            map snd (ReactionWidget.curves
                       (solve_and_plot_as_specified echo_odeint 400 7 8 4))
            = [[7]; [50]; [INR 1000]; [INR 1000]]).
  { unfold solve_and_plot_as_specified, echo_odeint, hsplit3.
    cbn [map fst snd ReactionWidget.curves k_off f].
    now rewrite linspace_length. }
  repeat split; try assumption.
  - discriminate.
  - intros Heq. rewrite Heq, Hspec in Hcode.
    injection Hcode as H7 _. lra.
Qed.

(** C10, amended: the widget exposes four of the eight parameters as
    sliders, namely [k_on], [f], [h] and [g]; every invocation fixes
    [R_T = 1], [k_off = 50], [f_prime = 400], [h_prime = 6], the zero
    initial state and a grid of 5000 samples from 0 to 10, and hands the
    integrator the eight-value tuple made of the four slider values and
    these four constants; the curves and k_dev come from that one call. *)
Theorem widget_pipeline :
  forall (odeint : (addr -> R -> params -> M addr) -> R * R * R ->
                   list R -> params -> list (R * R * R))
         (k_on f h g : R),
    let time := linspace 0 10 5000 in
    let solutions :=
      odeint ReactionWidget.rhs (0, 0, 0) time
             (Params 1 k_on 50 f 400 h 6 g) in
    ReactionWidget.display_keywords = ["k_on"; "f"; "h"; "g"]%string /\
    (forall values : string -> R,
        ReactionWidget.interact odeint values
        = ReactionWidget.solve_and_plot odeint
            (values "k_on"%string) (values "f"%string)
            (values "h"%string) (values "g"%string)) /\
    ReactionWidget.solve_and_plot odeint k_on f h g
    = ReactionWidget.Shown
        [(time, map (fun row => fst (fst row)) solutions);
         (time, map (fun row => snd (fst row)) solutions);
         (time, map (fun row => snd row) solutions);
         (time, map (fun row => snd row) solutions)]
        (k_dev time (map (fun row => snd row) solutions)) /\
    length time = 5000%nat /\
    nth_error time 0 = Some 0 /\
    nth_error time 4999 = Some 10.
Proof.
  intros odeint k_on f h g time solutions.
  split; [reflexivity|]. split; [reflexivity|].
  split; [apply solve_and_plot_unfold|].
  split; [apply linspace_length|].
  split; [apply linspace_first; lia|].
  apply (linspace_last 0 10 5000). lia.
Qed.

(** ** Conservation *)

Lemma derivatives_sum (p : params) (D A_1 A_2 : R) :
  dD_dt p D A_1 A_2 + dA1_dt p D A_1 A_2 + dA2_dt p D A_1 A_2
  = - dRoff_dt p D A_1 A_2.
Proof.
  unfold dD_dt, dA1_dt, dA2_dt, dRoff_dt, R_off. ring.
Qed.

Lemma R_off_derivative (p : params) (D A_1 A_2 : R -> R) (t : R) :
  solves p D A_1 A_2 -> 0 <= t ->
  derivable_pt_lim (fun s => R_off p (D s) (A_1 s) (A_2 s)) t
                   (dRoff_dt p (D t) (A_1 t) (A_2 t)).
Proof.
  intros Hsol Ht. destruct (Hsol t Ht) as [HD [HA1 HA2]].
  pose proof (derivatives_sum p (D t) (A_1 t) (A_2 t)) as Hsum.
  replace (dRoff_dt p (D t) (A_1 t) (A_2 t))
    with (0 - dD_dt p (D t) (A_1 t) (A_2 t)
          - dA1_dt p (D t) (A_1 t) (A_2 t)
          - dA2_dt p (D t) (A_1 t) (A_2 t)) by lra.
  apply (derivable_pt_lim_ext
           (fct_cte (R_T p) - D - A_1 - A_2)%F); [reflexivity|].
  repeat apply derivable_pt_lim_minus; try assumption.
  apply derivable_pt_lim_const.
Qed.

Lemma total_derivative (p : params) (D A_1 A_2 : R -> R) (t : R) :
  solves p D A_1 A_2 -> 0 <= t ->
  derivable_pt_lim
    (fun s => D s + A_1 s + A_2 s + R_off p (D s) (A_1 s) (A_2 s)) t 0.
Proof.
  intros Hsol Ht. destruct (Hsol t Ht) as [HD [HA1 HA2]].
  pose proof (derivatives_sum p (D t) (A_1 t) (A_2 t)) as Hsum.
  pose proof (R_off_derivative p D A_1 A_2 t Hsol Ht) as HR.
  replace 0
    with (dD_dt p (D t) (A_1 t) (A_2 t)
          + dA1_dt p (D t) (A_1 t) (A_2 t)
          + dA2_dt p (D t) (A_1 t) (A_2 t)
          + dRoff_dt p (D t) (A_1 t) (A_2 t)) by lra.
  apply (derivable_pt_lim_ext
           (D + A_1 + A_2
            + (fun s => R_off p (D s) (A_1 s) (A_2 s)))%F); [reflexivity|].
  apply derivable_pt_lim_plus; [|exact HR].
  apply derivable_pt_lim_plus; [|exact HA2].
  apply derivable_pt_lim_plus; assumption.
Qed.

(** C3: for every state and parameter tuple [D + A_1 + A_2 + R_off = R_T],
    and the three returned derivatives sum to minus the rate of change of
    [R_off]; hence along every trajectory obtained by integrating the
    derivative function [R_off] changes at exactly that rate and the total
    [D + A_1 + A_2 + R_off] stays equal to [R_T], with derivative zero. *)
Theorem total_sites_conserved :
  forall (p : params),
    (forall D A_1 A_2 : R,
        D + A_1 + A_2 + R_off p D A_1 A_2 = R_T p /\
        dD_dt p D A_1 A_2 + dA1_dt p D A_1 A_2 + dA2_dt p D A_1 A_2
        = - dRoff_dt p D A_1 A_2) /\
    (forall D A_1 A_2 : R -> R,
        solves p D A_1 A_2 ->
        forall t : R,
          0 <= t ->
          derivable_pt_lim (fun s => R_off p (D s) (A_1 s) (A_2 s)) t
            (- (dD_dt p (D t) (A_1 t) (A_2 t)
                + dA1_dt p (D t) (A_1 t) (A_2 t)
                + dA2_dt p (D t) (A_1 t) (A_2 t))) /\
          derivable_pt_lim
            (fun s => D s + A_1 s + A_2 s + R_off p (D s) (A_1 s) (A_2 s))
            t 0 /\
          D t + A_1 t + A_2 t + R_off p (D t) (A_1 t) (A_2 t) = R_T p).
Proof.
  intros p. split.
  - intros D A_1 A_2. split; [unfold R_off; ring | apply derivatives_sum].
  - intros D A_1 A_2 Hsol t Ht. split; [|split].
    + rewrite derivatives_sum, Ropp_involutive.
      now apply R_off_derivative.
    + now apply total_derivative.
    + unfold R_off. ring.
Qed.

Lemma steady_state_is_fixed_point :
  dD_dt notebook_params steady_D steady_A1 steady_A2 = 0 /\
  dA1_dt notebook_params steady_D steady_A1 steady_A2 = 0 /\
  dA2_dt notebook_params steady_D steady_A1 steady_A2 = 0.
Proof.
  unfold dD_dt, dA1_dt, dA2_dt, steady_D, steady_A1, steady_A2. simpl.
  repeat split; lra.
Qed.

Lemma notebook_steady_state_agrees :
  steady_state_D notebook_params = steady_D /\
  steady_state_A1 notebook_params = steady_A1 /\
  steady_state_A2 notebook_params = steady_A2.
Proof.
  unfold steady_state_D, steady_state_A1, steady_state_A2, weight_total,
    weight_Roff, weight_D, weight_A1, weight_A2, cycle_weight,
    steady_D, steady_A1, steady_A2.
  simpl. repeat split; lra.
Qed.

Lemma steady_state_solves :
  solves notebook_params
         (fun _ => steady_D) (fun _ => steady_A1) (fun _ => steady_A2).
Proof.
  intros t _.
  destruct steady_state_is_fixed_point as [-> [-> ->]].
  repeat split; apply derivable_pt_lim_const.
Qed.

Lemma total_sites_conserved_witness :
  derivable_pt_lim
    (fun s : R =>
       steady_D + steady_A1 + steady_A2
       + R_off notebook_params steady_D steady_A1 steady_A2) 0 0 /\
  steady_D + steady_A1 + steady_A2
  + R_off notebook_params steady_D steady_A1 steady_A2 = 1.
Proof.
  exact (proj2 (proj2 (total_sites_conserved notebook_params) _ _ _
                  steady_state_solves 0 (Rle_refl 0))).
Defined.

(** ** Derivatives along a trajectory *)

Lemma exp_scaled_derivative (k t : R) :
  derivable_pt_lim (fun s => exp (k * s)) t (exp (k * t) * k).
Proof.
  apply (derivable_pt_lim_ext (comp exp (mult_real_fct k id))); [reflexivity|].
  apply derivable_pt_lim_comp.
  - replace k with (k * 1) at 2 by ring.
    apply derivable_pt_lim_scal, derivable_pt_lim_id.
  - apply derivable_pt_lim_exp.
Qed.

(** An affine combination of the three state variables. *)
Lemma affine_derivative (a b c d : R) (D A_1 A_2 : R -> R) (t x y z : R) :
  derivable_pt_lim D t x ->
  derivable_pt_lim A_1 t y ->
  derivable_pt_lim A_2 t z ->
  derivable_pt_lim (fun s => a + b * D s + c * A_1 s + d * A_2 s) t
                   (b * x + c * y + d * z).
Proof.
  intros HD HA1 HA2.
  apply (derivable_pt_lim_ext
           (fct_cte a + mult_real_fct b D + mult_real_fct c A_1
            + mult_real_fct d A_2)%F); [reflexivity|].
  replace (b * x + c * y + d * z) with (0 + b * x + c * y + d * z) by ring.
  apply derivable_pt_lim_plus; [apply derivable_pt_lim_plus;
                                [apply derivable_pt_lim_plus|]|].
  - apply derivable_pt_lim_const.
  - now apply derivable_pt_lim_scal.
  - now apply derivable_pt_lim_scal.
  - now apply derivable_pt_lim_scal.
Qed.

Lemma shift_derivative (F : R -> R) (c t l : R) :
  derivable_pt_lim F t l -> derivable_pt_lim (fun r => F r - c) t l.
Proof.
  intros HF.
  apply (derivable_pt_lim_ext (F - fct_cte c)%F); [reflexivity|].
  replace l with (l - 0) by ring.
  apply derivable_pt_lim_minus; [exact HF | apply derivable_pt_lim_const].
Qed.

Lemma sum3_derivative (F G H : R -> R) (t a b c : R) :
  derivable_pt_lim F t a -> derivable_pt_lim G t b ->
  derivable_pt_lim H t c ->
  derivable_pt_lim (fun r => F r + G r + H r) t (a + b + c).
Proof.
  intros HF HG HH.
  apply (derivable_pt_lim_ext (F + G + H)%F); [reflexivity|].
  apply derivable_pt_lim_plus; [apply derivable_pt_lim_plus|]; assumption.
Qed.

Lemma weighted_squares_derivative
      (a b c : R) (u v w : R -> R) (t u' v' w' : R) :
  derivable_pt_lim u t u' ->
  derivable_pt_lim v t v' ->
  derivable_pt_lim w t w' ->
  derivable_pt_lim (fun s => a * (u s * u s) + b * (v s * v s)
                             + c * (w s * w s)) t
                   (2 * (a * u t * u' + b * v t * v' + c * w t * w')).
Proof.
  intros Hu Hv Hw.
  apply (derivable_pt_lim_ext
           (mult_real_fct a (u * u) + mult_real_fct b (v * v)
            + mult_real_fct c (w * w))%F); [reflexivity|].
  replace (2 * (a * u t * u' + b * v t * v' + c * w t * w'))
    with (a * (u' * u t + u t * u') + b * (v' * v t + v t * v')
          + c * (w' * w t + w t * w')) by ring.
  apply derivable_pt_lim_plus; [apply derivable_pt_lim_plus|];
    apply derivable_pt_lim_scal, derivable_pt_lim_mult; assumption.
Qed.

Lemma four_squares_derivative
      (a b c d : R) (s u v w : R -> R) (t s' u' v' w' : R) :
  derivable_pt_lim s t s' ->
  derivable_pt_lim u t u' ->
  derivable_pt_lim v t v' ->
  derivable_pt_lim w t w' ->
  derivable_pt_lim
    (fun r => a * (s r * s r) + b * (u r * u r) + c * (v r * v r)
              + d * (w r * w r)) t
    (2 * (a * s t * s' + b * u t * u' + c * v t * v' + d * w t * w')).
Proof.
  intros Hs Hu Hv Hw.
  apply (derivable_pt_lim_ext
           (mult_real_fct a (s * s) + mult_real_fct b (u * u)
            + mult_real_fct c (v * v) + mult_real_fct d (w * w))%F);
    [reflexivity|].
  replace (2 * (a * s t * s' + b * u t * u' + c * v t * v' + d * w t * w'))
    with (a * (s' * s t + s t * s') + b * (u' * u t + u t * u')
          + c * (v' * v t + v t * v') + d * (w' * w t + w t * w'))
    by ring.
  apply derivable_pt_lim_plus;
    [apply derivable_pt_lim_plus; [apply derivable_pt_lim_plus|]|];
    apply derivable_pt_lim_scal, derivable_pt_lim_mult; assumption.
Qed.

Lemma nondecreasing_from_derivative (F F' : R -> R) (a b : R) :
  (forall c, a <= c <= b -> derivable_pt_lim F c (F' c)) ->
  (forall c, a <= c <= b -> 0 <= F' c) ->
  forall s t, a <= s -> s <= t -> t <= b -> F s <= F t.
Proof.
  intros HF Hpos s t Has Hst Htb.
  destruct (Req_dec s t) as [-> | Hne]; [lra|].
  destruct (MVT_cor2 F F' s t ltac:(lra)) as [c [Hc Hin]].
  { intros c Hc. apply HF. lra. }
  specialize (Hpos c ltac:(lra)). nra.
Qed.

(** A function with a positive value at [0] and a derivative there stays
    positive on a neighbourhood of [0]. *)
Lemma positive_near_zero (F : R -> R) (l : R) :
  derivable_pt_lim F 0 l -> 0 < F 0 ->
  exists delta, 0 < delta /\ forall t, Rabs t < delta -> 0 < F t.
Proof.
  intros HF Hpos.
  assert (Hcont : continuity_pt F 0).
  { apply derivable_continuous_pt. exists l. exact HF. }
  destruct (Hcont (F 0) Hpos) as [alp [Halp Hnear]].
  exists alp. split; [exact Halp|].
  intros t Ht.
  destruct (Req_dec t 0) as [-> | Hne]; [exact Hpos|].
  assert (Hdist : R_dist (F t) (F 0) < F 0).
  { apply Hnear. split.
    - split; [exact I | auto].
    - unfold R_dist. simpl. unfold R_dist. now rewrite Rminus_0_r. }
  unfold R_dist in Hdist.
  apply Rabs_def2 in Hdist. lra.
Qed.

(** Along a trajectory the returned derivatives are themselves
    differentiable: the assignments are affine in the state, so each rate
    changes by the linear part applied to the rates. *)
Lemma dD_dt_derivative (p : params) (D A_1 A_2 : R -> R) (t : R) :
  solves p D A_1 A_2 -> 0 <= t ->
  derivable_pt_lim (fun s => dD_dt p (D s) (A_1 s) (A_2 s)) t
    (dD_dt p (dD_dt p (D t) (A_1 t) (A_2 t))
             (dA1_dt p (D t) (A_1 t) (A_2 t))
             (dA2_dt p (D t) (A_1 t) (A_2 t))
     - dD_dt p 0 0 0).
Proof.
  intros Hsol Ht. destruct (Hsol t Ht) as [HD [HA1 HA2]].
  apply (derivable_pt_lim_ext
           (fun s => k_on p * R_T p + (- (k_on p + k_off p + f p)) * D s
                     + (f_prime p - k_on p) * A_1 s
                     + (g p - k_on p) * A_2 s)).
  { intros s. unfold dD_dt. ring. }
  match goal with
  | |- derivable_pt_lim _ _ ?l =>
      replace l with
      ((- (k_on p + k_off p + f p)) * dD_dt p (D t) (A_1 t) (A_2 t)
       + (f_prime p - k_on p) * dA1_dt p (D t) (A_1 t) (A_2 t)
       + (g p - k_on p) * dA2_dt p (D t) (A_1 t) (A_2 t))
      by (unfold dD_dt; ring)
  end.
  now apply affine_derivative.
Qed.

Lemma dA1_dt_derivative (p : params) (D A_1 A_2 : R -> R) (t : R) :
  solves p D A_1 A_2 -> 0 <= t ->
  derivable_pt_lim (fun s => dA1_dt p (D s) (A_1 s) (A_2 s)) t
    (dA1_dt p (dD_dt p (D t) (A_1 t) (A_2 t))
              (dA1_dt p (D t) (A_1 t) (A_2 t))
              (dA2_dt p (D t) (A_1 t) (A_2 t))).
Proof.
  intros Hsol Ht. destruct (Hsol t Ht) as [HD [HA1 HA2]].
  apply (derivable_pt_lim_ext
           (fun s => 0 + f p * D s + (- (f_prime p + h p)) * A_1 s
                     + h_prime p * A_2 s)).
  { intros s. unfold dA1_dt. ring. }
  match goal with
  | |- derivable_pt_lim _ _ ?l =>
      replace l with
      (f p * dD_dt p (D t) (A_1 t) (A_2 t)
       + (- (f_prime p + h p)) * dA1_dt p (D t) (A_1 t) (A_2 t)
       + h_prime p * dA2_dt p (D t) (A_1 t) (A_2 t))
      by (unfold dA1_dt; ring)
  end.
  now apply affine_derivative.
Qed.

Lemma dA2_dt_derivative (p : params) (D A_1 A_2 : R -> R) (t : R) :
  solves p D A_1 A_2 -> 0 <= t ->
  derivable_pt_lim (fun s => dA2_dt p (D s) (A_1 s) (A_2 s)) t
    (dA2_dt p (dD_dt p (D t) (A_1 t) (A_2 t))
              (dA1_dt p (D t) (A_1 t) (A_2 t))
              (dA2_dt p (D t) (A_1 t) (A_2 t))).
Proof.
  intros Hsol Ht. destruct (Hsol t Ht) as [HD [HA1 HA2]].
  apply (derivable_pt_lim_ext
           (fun s => 0 + 0 * D s + h p * A_1 s
                     + (- (h_prime p + g p)) * A_2 s)).
  { intros s. unfold dA2_dt. ring. }
  match goal with
  | |- derivable_pt_lim _ _ ?l =>
      replace l with
      (0 * dD_dt p (D t) (A_1 t) (A_2 t)
       + h p * dA1_dt p (D t) (A_1 t) (A_2 t)
       + (- (h_prime p + g p)) * dA2_dt p (D t) (A_1 t) (A_2 t))
      by (unfold dA2_dt; ring)
  end.
  now apply affine_derivative.
Qed.

Lemma rates_solve_homogeneous (p : params) (D A_1 A_2 : R -> R) :
  solves p D A_1 A_2 ->
  solves (homogeneous p)
         (fun s => dD_dt p (D s) (A_1 s) (A_2 s))
         (fun s => dA1_dt p (D s) (A_1 s) (A_2 s))
         (fun s => dA2_dt p (D s) (A_1 s) (A_2 s)).
Proof.
  intros Hsol t Ht.
  pose proof (dD_dt_derivative p D A_1 A_2 t Hsol Ht) as H1.
  pose proof (dA1_dt_derivative p D A_1 A_2 t Hsol Ht) as H2.
  pose proof (dA2_dt_derivative p D A_1 A_2 t Hsol Ht) as H3.
  repeat split.
  - replace (dD_dt (homogeneous p) (dD_dt p (D t) (A_1 t) (A_2 t))
               (dA1_dt p (D t) (A_1 t) (A_2 t))
               (dA2_dt p (D t) (A_1 t) (A_2 t)))
      with (dD_dt p (dD_dt p (D t) (A_1 t) (A_2 t))
              (dA1_dt p (D t) (A_1 t) (A_2 t))
              (dA2_dt p (D t) (A_1 t) (A_2 t)) - dD_dt p 0 0 0)
      by (unfold dD_dt, homogeneous; simpl; ring).
    exact H1.
  - exact H2.
  - exact H3.
Qed.

(** ** Relaxation of the notebook parameter set *)

Lemma energy_dissipation (x y z : R) :
  2 * (1 * x * (dD_dt notebook_params x y z - dD_dt notebook_params 0 0 0)
       + 10 * y * dA1_dt notebook_params x y z
       + 100 * z * dA2_dt notebook_params x y z)
  + 10 * rate_energy x y z <= 0.
Proof.
  unfold dD_dt, dA1_dt, dA2_dt, rate_energy. simpl.
  pose proof (Rle_0_sqr (x - 50 / 99 * y + 2 / 5 * z)) as H1.
  pose proof (Rle_0_sqr (y - 3267 / 38647 * z)) as H2.
  pose proof (Rle_0_sqr z) as H3.
  unfold Rsqr in H1, H2, H3.
  lra.
Qed.

Lemma energy_along_derivative (D A_1 A_2 : R -> R) (t : R) :
  solves notebook_params D A_1 A_2 -> 0 <= t ->
  derivable_pt_lim (energy_along notebook_params D A_1 A_2) t
    (let x := dD_dt notebook_params (D t) (A_1 t) (A_2 t) in
     let y := dA1_dt notebook_params (D t) (A_1 t) (A_2 t) in
     let z := dA2_dt notebook_params (D t) (A_1 t) (A_2 t) in
     2 * (1 * x * (dD_dt notebook_params x y z - dD_dt notebook_params 0 0 0)
          + 10 * y * dA1_dt notebook_params x y z
          + 100 * z * dA2_dt notebook_params x y z)).
Proof.
  intros Hsol Ht. unfold energy_along, rate_energy.
  apply (weighted_squares_derivative 1 10 100
           (fun s => dD_dt notebook_params (D s) (A_1 s) (A_2 s))
           (fun s => dA1_dt notebook_params (D s) (A_1 s) (A_2 s))
           (fun s => dA2_dt notebook_params (D s) (A_1 s) (A_2 s))).
  - now apply dD_dt_derivative.
  - now apply dA1_dt_derivative.
  - now apply dA2_dt_derivative.
Qed.

(** The energy of the rates decays at least like [exp (- 10 t)]. *)
Lemma energy_decay (D A_1 A_2 : R -> R) (t : R) :
  solves notebook_params D A_1 A_2 ->
  0 <= t ->
  energy_along notebook_params D A_1 A_2 t * exp (10 * t)
  <= energy_along notebook_params D A_1 A_2 0.
Proof.
  intros Hsol Ht.
  set (E := energy_along notebook_params D A_1 A_2).
  set (E' := fun s =>
               let x := dD_dt notebook_params (D s) (A_1 s) (A_2 s) in
               let y := dA1_dt notebook_params (D s) (A_1 s) (A_2 s) in
               let z := dA2_dt notebook_params (D s) (A_1 s) (A_2 s) in
               2 * (1 * x * (dD_dt notebook_params x y z
                             - dD_dt notebook_params 0 0 0)
                    + 10 * y * dA1_dt notebook_params x y z
                    + 100 * z * dA2_dt notebook_params x y z)).
  set (G := fun s => E s * exp (10 * s)).
  set (G' := fun s => E' s * exp (10 * s) + E s * (exp (10 * s) * 10)).
  assert (HG : forall s, 0 <= s -> derivable_pt_lim G s (G' s)).
  { intros s Hs. unfold G, G'.
    apply (derivable_pt_lim_mult E (fun u => exp (10 * u))).
    - now apply energy_along_derivative.
    - apply exp_scaled_derivative. }
  assert (HG' : forall s, G' s <= 0).
  { intros s. unfold G', E', E, energy_along.
    set (x := dD_dt notebook_params (D s) (A_1 s) (A_2 s)).
    set (y := dA1_dt notebook_params (D s) (A_1 s) (A_2 s)).
    set (z := dA2_dt notebook_params (D s) (A_1 s) (A_2 s)).
    pose proof (energy_dissipation x y z) as Hdis.
    pose proof (exp_pos (10 * s)) as Hexp.
    cbv zeta. nra. }
  destruct (Req_dec t 0) as [-> | Hne].
  - unfold G. rewrite Rmult_0_r, exp_0. lra.
  - destruct (MVT_cor2 G G' 0 t ltac:(lra) (fun c Hc => HG c (proj1 Hc)))
      as [c [Hc _]].
    specialize (HG' c).
    assert (HG0 : G 0 = E 0).
    { unfold G. rewrite Rmult_0_r, exp_0. ring. }
    change (G t <= E 0). nra.
Qed.

Lemma exp_INR_lower_bound (n : nat) : 2 ^ n <= exp (INR n).
Proof.
  induction n as [|n IH].
  - simpl. rewrite exp_0. lra.
  - rewrite S_INR, exp_plus. simpl.
    pose proof e_gt_2 as He. unfold e in He.
    pose proof (exp_pos (INR n)) as Hpos.
    assert (Hpow : 0 <= 2 ^ n) by (apply pow_le; lra).
    nra.
Qed.

Lemma exp_100_lower_bound : 2 ^ 100 <= exp (10 * 10).
Proof.
  replace (10 * 10) with (INR 100).
  - apply exp_INR_lower_bound.
  - rewrite INR_IZR_INZ. simpl. lra.
Qed.

Lemma initial_energy_bound (D A_1 A_2 : R) :
  valid_state notebook_params D A_1 A_2 ->
  rate_energy (dD_dt notebook_params D A_1 A_2)
              (dA1_dt notebook_params D A_1 A_2)
              (dA2_dt notebook_params D A_1 A_2) <= 1834640.
Proof.
  intros [HD [HA1 [HA2 Hsum]]]. simpl in Hsum.
  assert (Hx : -100 <= dD_dt notebook_params D A_1 A_2 <= 400)
    by (unfold dD_dt; simpl; lra).
  assert (Hy : -408 <= dA1_dt notebook_params D A_1 A_2 <= 50)
    by (unfold dA1_dt; simpl; lra).
  assert (Hz : -10 <= dA2_dt notebook_params D A_1 A_2 <= 8)
    by (unfold dA2_dt; simpl; lra).
  unfold rate_energy. nra.
Qed.

Lemma small_square (x : R) : x * x < 1 / 1000000 -> Rabs x < 1 / 1000.
Proof.
  intros Hx. apply Rabs_def1; nra.
Qed.

(** C8: with the notebook's parameters [R_T=1, k_on=400, k_off=50, f=50,
    f_prime=400, h=8, h_prime=6, g=4], along every trajectory obtained by
    integrating the model from a valid initial state (the zero state [y_0]
    is one), the derivative function evaluated at the state reached at
    [t = 10] (and at any later time) returns three values all within
    [1e-3] of zero. *)
Theorem rates_vanish_at_10 :
  valid_state notebook_params (fst (fst y_0)) (snd (fst y_0)) (snd y_0) /\
  forall D A_1 A_2 : R -> R,
    solves notebook_params D A_1 A_2 ->
    valid_state notebook_params (D 0) (A_1 0) (A_2 0) ->
    forall t : R,
      10 <= t ->
      Rabs (dD_dt notebook_params (D t) (A_1 t) (A_2 t)) < 1 / 1000 /\
      Rabs (dA1_dt notebook_params (D t) (A_1 t) (A_2 t)) < 1 / 1000 /\
      Rabs (dA2_dt notebook_params (D t) (A_1 t) (A_2 t)) < 1 / 1000.
Proof.
  split.
  { unfold valid_state. simpl. lra. }
  intros D A_1 A_2 Hsol Hvalid t Ht.
  pose proof (energy_decay D A_1 A_2 t Hsol ltac:(lra)) as Hdecay.
  pose proof (initial_energy_bound _ _ _ Hvalid) as Hinit.
  pose proof exp_100_lower_bound as Hexp.
  unfold energy_along in Hdecay.
  set (x := dD_dt notebook_params (D t) (A_1 t) (A_2 t)) in *.
  set (y := dA1_dt notebook_params (D t) (A_1 t) (A_2 t)) in *.
  set (z := dA2_dt notebook_params (D t) (A_1 t) (A_2 t)) in *.
  assert (Hpos : 0 <= rate_energy x y z) by (unfold rate_energy; nra).
  assert (Hmono : exp (10 * 10) <= exp (10 * t)).
  { destruct (Req_dec t 10) as [-> | Hne]; [lra|].
    apply Rlt_le, exp_increasing. lra. }
  assert (Hbig : 2 ^ 41 <= exp (10 * t)).
  { apply Rle_trans with (2 ^ 100); [|lra].
    apply Rle_pow; [lra | lia]. }
  assert (Hsmall : rate_energy x y z * 2 ^ 41 <= 1834640) by nra.
  assert (Hsmall' : rate_energy x y z < 1 / 1000000) by lra.
  unfold rate_energy in Hsmall'.
  repeat split; apply small_square; nra.
Qed.

Lemma steady_state_valid :
  valid_state notebook_params steady_D steady_A1 steady_A2.
Proof.
  unfold valid_state, steady_D, steady_A1, steady_A2. simpl. lra.
Qed.

Lemma rates_vanish_at_10_witness :
  Rabs (dD_dt notebook_params steady_D steady_A1 steady_A2) < 1 / 1000 /\
  Rabs (dA1_dt notebook_params steady_D steady_A1 steady_A2) < 1 / 1000 /\
  Rabs (dA2_dt notebook_params steady_D steady_A1 steady_A2) < 1 / 1000.
Proof.
  exact (proj2 rates_vanish_at_10
           (fun _ => steady_D) (fun _ => steady_A1) (fun _ => steady_A2)
           steady_state_solves steady_state_valid 10 (Rle_refl 10)).
Defined.

(** ** Early rise of A_2 *)

Lemma A2_nondecreasing_early (p : params) (D A_1 A_2 : R -> R) :
  positive_rates p -> 0 < R_T p ->
  solves p D A_1 A_2 ->
  D 0 = 0 -> A_1 0 = 0 -> A_2 0 = 0 ->
  exists delta,
    0 < delta /\
    forall s t, 0 <= s -> s <= t -> t <= delta -> A_2 s <= A_2 t.
Proof.
  intros [Hkon [Hkoff [Hf [Hfp [Hh [Hhp Hg]]]]]] HRT Hsol HD0 HA10 HA20.
  set (p0 := homogeneous p).
  set (w1 := fun s => dD_dt p (D s) (A_1 s) (A_2 s)).
  set (w2 := fun s => dA1_dt p (D s) (A_1 s) (A_2 s)).
  set (w3 := fun s => dA2_dt p (D s) (A_1 s) (A_2 s)).
  assert (Hw : solves p0 w1 w2 w3)
    by exact (rates_solve_homogeneous p D A_1 A_2 Hsol).
  set (x1 := fun s => dD_dt p0 (w1 s) (w2 s) (w3 s)).
  set (x2 := fun s => dA1_dt p0 (w1 s) (w2 s) (w3 s)).
  set (x3 := fun s => dA2_dt p0 (w1 s) (w2 s) (w3 s)).
  assert (Hx : solves p0 x1 x2 x3)
    by exact (rates_solve_homogeneous p0 w1 w2 w3 Hw).
  set (z3 := fun s => dA2_dt p0 (x1 s) (x2 s) (x3 s)).
  assert (Hw0 : w1 0 = k_on p * R_T p /\ w2 0 = 0 /\ w3 0 = 0).
  { unfold w1, w2, w3, dD_dt, dA1_dt, dA2_dt.
    rewrite HD0, HA10, HA20. repeat split; ring. }
  destruct Hw0 as [Hw10 [Hw20 Hw30]].
  assert (Hx30 : x3 0 = 0).
  { unfold x3, dA2_dt. rewrite Hw20, Hw30. ring. }
  assert (Hz30 : z3 0 = h p * f p * k_on p * R_T p).
  { unfold z3, x1, x2, x3, dD_dt, dA1_dt, dA2_dt.
    rewrite Hw10, Hw20, Hw30. unfold p0, homogeneous. simpl. ring. }
  assert (Hz3pos : 0 < z3 0).
  { rewrite Hz30. repeat apply Rmult_lt_0_compat; assumption. }
  destruct (positive_near_zero z3 _
              (dA2_dt_derivative p0 x1 x2 x3 0 Hx (Rle_refl 0)) Hz3pos)
    as [delta [Hdelta Hnear]].
  exists (delta / 2). split; [lra|].
  assert (Hz3 : forall c, 0 <= c <= delta / 2 -> 0 <= z3 c).
  { intros c Hc. apply Rlt_le, Hnear. apply Rabs_def1; lra. }
  assert (Hx3 : forall c, 0 <= c <= delta / 2 -> 0 <= x3 c).
  { intros c Hc. rewrite <- Hx30.
    apply (nondecreasing_from_derivative x3 z3 0 (delta / 2)); try lra.
    - intros t [Ht _]. apply (Hx t Ht).
    - exact Hz3. }
  assert (Hw3 : forall c, 0 <= c <= delta / 2 -> 0 <= w3 c).
  { intros c Hc. rewrite <- Hw30.
    apply (nondecreasing_from_derivative w3 x3 0 (delta / 2)); try lra.
    - intros t [Ht _]. apply (Hw t Ht).
    - exact Hx3. }
  apply (nondecreasing_from_derivative A_2 w3 0 (delta / 2)).
  - intros t [Ht _]. apply (Hsol t Ht).
  - exact Hw3.
Qed.

(** ** Steady state and convergence for positive rates *)

Section PositiveRates.

Variable p : params.
Hypothesis Hpos : positive_rates p.

Lemma weights_positive :
  0 < cycle_weight p /\ 0 < weight_Roff p /\ 0 < weight_D p /\
  0 < weight_A1 p /\ 0 < weight_A2 p /\ 0 < weight_total p.
Proof.
  destruct Hpos as [Hkon [Hkoff [Hf [Hfp [Hh [Hhp Hg]]]]]].
  assert (Hq : 0 < cycle_weight p).
  { unfold cycle_weight.
    pose proof (Rmult_lt_0_compat _ _ Hfp Hhp).
    pose proof (Rmult_lt_0_compat _ _ Hfp Hg).
    pose proof (Rmult_lt_0_compat _ _ Hh Hg). lra. }
  assert (Hkf : 0 < k_on p * f p) by (apply Rmult_lt_0_compat; assumption).
  assert (HwR : 0 < weight_Roff p)
    by (unfold weight_Roff; apply Rmult_lt_0_compat; assumption).
  assert (HwD : 0 < weight_D p)
    by (unfold weight_D; apply Rmult_lt_0_compat; assumption).
  assert (Hw1 : 0 < weight_A1 p)
    by (unfold weight_A1; apply Rmult_lt_0_compat; lra).
  assert (Hw2 : 0 < weight_A2 p)
    by (unfold weight_A2; apply Rmult_lt_0_compat; lra).
  unfold weight_total. repeat split; lra.
Qed.

Lemma steady_state_fixed_point :
  dD_dt p (steady_state_D p) (steady_state_A1 p) (steady_state_A2 p) = 0 /\
  dA1_dt p (steady_state_D p) (steady_state_A1 p) (steady_state_A2 p) = 0 /\
  dA2_dt p (steady_state_D p) (steady_state_A1 p) (steady_state_A2 p) = 0.
Proof.
  destruct weights_positive as [_ [_ [_ [_ [_ Htot]]]]].
  assert (Hne : weight_total p <> 0) by lra.
  unfold dD_dt, dA1_dt, dA2_dt, steady_state_D, steady_state_A1,
    steady_state_A2.
  repeat split; field_simplify_eq; try exact Hne;
    unfold weight_total, weight_Roff, weight_D, weight_A1, weight_A2,
      cycle_weight; ring.
Qed.

Lemma decay_rate_bounds :
  0 < decay_rate p /\
  decay_rate p <= k_on p /\
  decay_rate p * (h_prime p + g p + 2 * h p)
  <= f_prime p * h_prime p + f_prime p * g p + h p * g p / 2 /\
  2 * decay_rate p <= h_prime p + g p / 2.
Proof.
  destruct Hpos as [Hkon [Hkoff [Hf [Hfp [Hh [Hhp Hg]]]]]].
  set (b1 := (f_prime p * h_prime p + f_prime p * g p + h p * g p / 2)
             / (h_prime p + g p + 2 * h p)).
  set (b2 := (h_prime p + g p / 2) / 2).
  assert (Hden : 0 < h_prime p + g p + 2 * h p) by lra.
  assert (Hnum : 0 < f_prime p * h_prime p + f_prime p * g p
                     + h p * g p / 2).
  { pose proof (Rmult_lt_0_compat _ _ Hfp Hhp).
    pose proof (Rmult_lt_0_compat _ _ Hfp Hg).
    pose proof (Rmult_lt_0_compat _ _ Hh Hg). lra. }
  assert (Hb1 : 0 < b1) by (apply Rdiv_lt_0_compat; assumption).
  assert (Hb2 : 0 < b2) by (unfold b2; lra).
  assert (Hle1 : decay_rate p <= k_on p) by apply Rmin_l.
  assert (Hle2 : decay_rate p <= b1).
  { unfold decay_rate. fold b1 b2.
    eapply Rle_trans; [apply Rmin_r | apply Rmin_l]. }
  assert (Hle3 : decay_rate p <= b2).
  { unfold decay_rate. fold b1 b2.
    eapply Rle_trans; [apply Rmin_r | apply Rmin_r]. }
  repeat split.
  - unfold decay_rate. fold b1 b2. repeat apply Rmin_glb_lt; assumption.
  - exact Hle1.
  - apply Rle_trans with (b1 * (h_prime p + g p + 2 * h p)).
    + apply Rmult_le_compat_r; lra.
    + unfold b1. apply Req_le. field. lra.
  - unfold b2 in Hle3. lra.
Qed.

End PositiveRates.

Section Dissipation.

Variable p : params.
Hypothesis Hpos : positive_rates p.

(** With [u] the deviation of each state relative to its weight, the
    weighted work of the linear flow is minus a sum of squares of
    differences along the transitions of the scheme. *)
Lemma flow_identity (uR uD u1 u2 : R) :
  let eD := weight_D p * uD in
  let e1 := weight_A1 p * u1 in
  let e2 := weight_A2 p * u2 in
  let x := k_on p * (weight_Roff p * uR) + f_prime p * e1 + g p * e2
           - (k_off p + f p) * eD in
  let y := f p * eD + h_prime p * e2 - (f_prime p + h p) * e1 in
  let z := h p * e1 - (h_prime p + g p) * e2 in
  - uR * (x + y + z) + uD * x + u1 * y + u2 * z
  = - (k_on p * k_off p * cycle_weight p) * ((uD - uR) * (uD - uR))
    - k_on p * f p
      * (cycle_weight p * ((u1 - uD) * (u1 - uD))
         + h p * g p * ((u1 - uD) * (u2 - u1))
         + h p * (h_prime p + g p) * ((u2 - u1) * (u2 - u1))).
Proof.
  intros.
  unfold x, y, z, eD, e1, e2, weight_Roff, weight_D, weight_A1, weight_A2,
    cycle_weight.
  ring.
Qed.

Lemma flow_inequality (lam eD e1 e2 uR uD u1 u2 : R) :
  0 <= lam -> lam <= k_on p ->
  lam * (h_prime p + g p + 2 * h p)
  <= f_prime p * h_prime p + f_prime p * g p + h p * g p / 2 ->
  2 * lam <= h_prime p + g p / 2 ->
  eD = weight_D p * uD -> e1 = weight_A1 p * u1 -> e2 = weight_A2 p * u2 ->
  0 - eD - e1 - e2 = weight_Roff p * uR ->
  - uR * (dD_dt (homogeneous p) eD e1 e2 + dA1_dt (homogeneous p) eD e1 e2
          + dA2_dt (homogeneous p) eD e1 e2)
  + uD * dD_dt (homogeneous p) eD e1 e2
  + u1 * dA1_dt (homogeneous p) eD e1 e2
  + u2 * dA2_dt (homogeneous p) eD e1 e2
  + lam * (weight_Roff p * (uR * uR) + weight_D p * (uD * uD)
           + weight_A1 p * (u1 * u1) + weight_A2 p * (u2 * u2)) <= 0.
Proof.
  intros Hlam0 Hlam1 Hlam2 Hlam3 HeD He1 He2 HeR.
  destruct Hpos as [Hkon [Hkoff [Hf [Hfp [Hh [Hhp Hg]]]]]].
  destruct (weights_positive p Hpos) as [Hq [HwR [HwD [Hw1 [Hw2 Htot]]]]].
  assert (Hkf : 0 < k_on p * f p) by (apply Rmult_lt_0_compat; assumption).
  assert (Hsum : weight_Roff p * uR + weight_D p * uD + weight_A1 p * u1
                 + weight_A2 p * u2 = 0) by lra.
  pose proof (flow_identity uR uD u1 u2) as Hid. cbv zeta in Hid.
  rewrite <- HeD, <- He1, <- He2, <- HeR in Hid.
  unfold dD_dt, dA1_dt, dA2_dt, homogeneous. simpl.
  rewrite Hid. clear Hid.
  set (d := uD - uR). set (a := u1 - uD). set (b := u2 - u1).
  assert (Hvar :
            weight_Roff p * (uR * uR) + weight_D p * (uD * uD)
            + weight_A1 p * (u1 * u1) + weight_A2 p * (u2 * u2)
            <= weight_Roff p * (d * d) + weight_A1 p * (a * a)
               + weight_A2 p * ((a + b) * (a + b))).
  { assert (Heq :
              weight_Roff p * (d * d) + weight_A1 p * (a * a)
              + weight_A2 p * ((a + b) * (a + b))
              = weight_Roff p * (uR * uR) + weight_D p * (uD * uD)
                + weight_A1 p * (u1 * u1) + weight_A2 p * (u2 * u2)
                + weight_total p * (uD * uD)
                - 2 * uD * (weight_Roff p * uR + weight_D p * uD
                            + weight_A1 p * u1 + weight_A2 p * u2)).
    { unfold d, a, b, weight_total. ring. }
    rewrite Heq, Hsum.
    assert (0 <= weight_total p * (uD * uD))
      by (apply Rmult_le_pos; [lra | apply Rle_0_sqr]).
    lra. }
  assert (HRD : lam * (weight_Roff p * (d * d))
                <= k_on p * k_off p * cycle_weight p * (d * d)).
  { unfold weight_Roff.
    assert (Hsq : 0 <= k_off p * cycle_weight p * (d * d)).
    { apply Rmult_le_pos; [apply Rmult_le_pos; lra | apply Rle_0_sqr]. }
    replace (k_on p * k_off p * cycle_weight p * (d * d))
      with (k_on p * (k_off p * cycle_weight p * (d * d))) by ring.
    apply Rmult_le_compat_r; assumption. }
  assert (Hcyc :
            lam * (weight_A1 p * (a * a)
                   + weight_A2 p * ((a + b) * (a + b)))
            <= k_on p * f p
               * (cycle_weight p * (a * a) + h p * g p * (a * b)
                  + h p * (h_prime p + g p) * (b * b))).
  { set (rest :=
           (f_prime p * h_prime p + f_prime p * g p + h p * g p / 2
            - lam * (h_prime p + g p + 2 * h p)) * (a * a)
           + h p * (h_prime p + g p / 2 - 2 * lam) * (b * b)
           + h p * g p / 2 * ((a + b) * (a + b))
           + lam * h p * ((a - b) * (a - b))).
    assert (Heq :
              k_on p * f p
              * (cycle_weight p * (a * a) + h p * g p * (a * b)
                 + h p * (h_prime p + g p) * (b * b))
              - lam * (weight_A1 p * (a * a)
                       + weight_A2 p * ((a + b) * (a + b)))
              = k_on p * f p * rest).
    { unfold rest, weight_A1, weight_A2, cycle_weight. field. }
    assert (Hrest : 0 <= k_on p * f p * rest).
    { assert (Hhg : 0 < h p * g p)
        by (apply Rmult_lt_0_compat; assumption).
      apply Rmult_le_pos; [lra|]. unfold rest.
      repeat apply Rplus_le_le_0_compat.
      - apply Rmult_le_pos; [lra | apply Rle_0_sqr].
      - apply Rmult_le_pos;
          [apply Rmult_le_pos; lra | apply Rle_0_sqr].
      - apply Rmult_le_pos; [lra | apply Rle_0_sqr].
      - apply Rmult_le_pos;
          [apply Rmult_le_pos; lra | apply Rle_0_sqr]. }
    lra. }
  assert (Hlamvar :
            lam * (weight_Roff p * (uR * uR) + weight_D p * (uD * uD)
                   + weight_A1 p * (u1 * u1) + weight_A2 p * (u2 * u2))
            <= lam * (weight_Roff p * (d * d) + weight_A1 p * (a * a)
                      + weight_A2 p * ((a + b) * (a + b))))
    by (apply Rmult_le_compat_l; assumption).
  lra.
Qed.

End Dissipation.

Section Convergence.

Variable p : params.
Hypothesis Hpos : positive_rates p.

(** The returned derivatives only depend on the deviation from the steady
    state. *)
Lemma rates_of_deviation (D A_1 A_2 : R) :
  let eD := D - steady_state_D p in
  let e1 := A_1 - steady_state_A1 p in
  let e2 := A_2 - steady_state_A2 p in
  dD_dt p D A_1 A_2 = dD_dt (homogeneous p) eD e1 e2 /\
  dA1_dt p D A_1 A_2 = dA1_dt (homogeneous p) eD e1 e2 /\
  dA2_dt p D A_1 A_2 = dA2_dt (homogeneous p) eD e1 e2.
Proof.
  intros eD e1 e2.
  destruct (steady_state_fixed_point p Hpos) as [H1 [H2 H3]].
  repeat split.
  - replace (dD_dt p D A_1 A_2)
      with (dD_dt p D A_1 A_2
            - dD_dt p (steady_state_D p) (steady_state_A1 p)
                    (steady_state_A2 p)) by (rewrite H1; ring).
    unfold dD_dt, homogeneous, eD, e1, e2. simpl. ring.
  - replace (dA1_dt p D A_1 A_2)
      with (dA1_dt p D A_1 A_2
            - dA1_dt p (steady_state_D p) (steady_state_A1 p)
                     (steady_state_A2 p)) by (rewrite H2; ring).
    unfold dA1_dt, homogeneous, eD, e1, e2. simpl. ring.
  - replace (dA2_dt p D A_1 A_2)
      with (dA2_dt p D A_1 A_2
            - dA2_dt p (steady_state_D p) (steady_state_A1 p)
                     (steady_state_A2 p)) by (rewrite H3; ring).
    unfold dA2_dt, homogeneous, eD, e1, e2. simpl. ring.
Qed.

Lemma deviation_dissipation (eD e1 e2 : R) :
  let x := dD_dt (homogeneous p) eD e1 e2 in
  let y := dA1_dt (homogeneous p) eD e1 e2 in
  let z := dA2_dt (homogeneous p) eD e1 e2 in
  2 * (/ weight_Roff p * (eD + e1 + e2) * (x + y + z)
       + / weight_D p * eD * x
       + / weight_A1 p * e1 * y
       + / weight_A2 p * e2 * z)
  + 2 * decay_rate p * deviation_energy p eD e1 e2 <= 0.
Proof.
  intros x y z.
  destruct (weights_positive p Hpos) as [Hq [HwR [HwD [Hw1 [Hw2 Htot]]]]].
  destruct (decay_rate_bounds p Hpos) as [Hl0 [Hl1 [Hl2 Hl3]]].
  set (uR := (0 - eD - e1 - e2) / weight_Roff p).
  set (uD := eD / weight_D p).
  set (u1 := e1 / weight_A1 p).
  set (u2 := e2 / weight_A2 p).
  pose proof (flow_inequality p Hpos (decay_rate p) eD e1 e2 uR uD u1 u2
                ltac:(lra) Hl1 Hl2 Hl3) as Hflow.
  fold x y z in Hflow.
  assert (Hcore :
            - uR * (x + y + z) + uD * x + u1 * y + u2 * z
            + decay_rate p
              * (weight_Roff p * (uR * uR) + weight_D p * (uD * uD)
                 + weight_A1 p * (u1 * u1) + weight_A2 p * (u2 * u2))
            <= 0).
  { apply Hflow; unfold uR, uD, u1, u2; field; lra. }
  clear Hflow.
  replace (2 * (/ weight_Roff p * (eD + e1 + e2) * (x + y + z)
                + / weight_D p * eD * x
                + / weight_A1 p * e1 * y
                + / weight_A2 p * e2 * z)
           + 2 * decay_rate p * deviation_energy p eD e1 e2)
    with (2 * (- uR * (x + y + z) + uD * x + u1 * y + u2 * z
               + decay_rate p
                 * (weight_Roff p * (uR * uR) + weight_D p * (uD * uD)
                    + weight_A1 p * (u1 * u1) + weight_A2 p * (u2 * u2)))).
  - lra.
  - unfold deviation_energy, uR, uD, u1, u2. field.
    repeat split; lra.
Qed.

End Convergence.

Section Settling.

Variable p : params.
Hypothesis Hpos : positive_rates p.
Variables D A_1 A_2 : R -> R.
Hypothesis Hsol : solves p D A_1 A_2.

Lemma deviation_energy_decay (t : R) :
  0 <= t ->
  deviation_energy_along p D A_1 A_2 t * exp (2 * decay_rate p * t)
  <= deviation_energy_along p D A_1 A_2 0.
Proof.
  intros Ht.
  set (V := deviation_energy_along p D A_1 A_2).
  set (lam := decay_rate p).
  set (eD := fun r => D r - steady_state_D p).
  set (e1 := fun r => A_1 r - steady_state_A1 p).
  set (e2 := fun r => A_2 r - steady_state_A2 p).
  set (x := fun r => dD_dt (homogeneous p) (eD r) (e1 r) (e2 r)).
  set (y := fun r => dA1_dt (homogeneous p) (eD r) (e1 r) (e2 r)).
  set (z := fun r => dA2_dt (homogeneous p) (eD r) (e1 r) (e2 r)).
  set (V' := fun r =>
               2 * (/ weight_Roff p * (eD r + e1 r + e2 r)
                    * (x r + y r + z r)
                    + / weight_D p * eD r * x r
                    + / weight_A1 p * e1 r * y r
                    + / weight_A2 p * e2 r * z r)).
  assert (He : forall r,
             0 <= r ->
             derivable_pt_lim eD r (x r) /\
             derivable_pt_lim e1 r (y r) /\
             derivable_pt_lim e2 r (z r)).
  { intros r Hr. destruct (Hsol r Hr) as [HD [HA1 HA2]].
    destruct (rates_of_deviation p Hpos (D r) (A_1 r) (A_2 r))
      as [Hx [Hy Hz]].
    unfold x, y, z, eD, e1, e2. rewrite <- Hx, <- Hy, <- Hz.
    repeat split; apply shift_derivative; assumption. }
  assert (HV : forall r, 0 <= r -> derivable_pt_lim V r (V' r)).
  { intros r Hr. destruct (He r Hr) as [HeD [He1 He2]].
    unfold V, deviation_energy_along, V', deviation_energy.
    fold (eD r) (e1 r) (e2 r).
    apply (four_squares_derivative
             (/ weight_Roff p) (/ weight_D p) (/ weight_A1 p)
             (/ weight_A2 p)
             (fun r => eD r + e1 r + e2 r) eD e1 e2);
      try assumption.
    now apply sum3_derivative. }
  set (G := fun r => V r * exp (2 * lam * r)).
  set (G' := fun r => V' r * exp (2 * lam * r)
                      + V r * (exp (2 * lam * r) * (2 * lam))).
  assert (HG : forall r, 0 <= r -> derivable_pt_lim G r (G' r)).
  { intros r Hr. unfold G, G'.
    apply (derivable_pt_lim_mult V (fun u => exp (2 * lam * u)));
      [now apply HV | apply exp_scaled_derivative]. }
  assert (HG' : forall r, G' r <= 0).
  { intros r. unfold G'.
    pose proof (deviation_dissipation p Hpos (eD r) (e1 r) (e2 r)) as Hdis.
    cbv zeta in Hdis. fold (x r) (y r) (z r) in Hdis.
    fold (V' r) in Hdis.
    change (deviation_energy p (eD r) (e1 r) (e2 r)) with (V r) in Hdis.
    fold lam in Hdis.
    pose proof (exp_pos (2 * lam * r)) as Hexp. nra. }
  destruct (Req_dec t 0) as [-> | Hne].
  - rewrite Rmult_0_r, exp_0. lra.
  - destruct (MVT_cor2 G G' 0 t ltac:(lra) (fun c Hc => HG c (proj1 Hc)))
      as [c [Hc _]].
    specialize (HG' c).
    assert (HG0 : G 0 = V 0).
    { unfold G. rewrite Rmult_0_r, exp_0. ring. }
    change (G t <= V 0). nra.
Qed.

Lemma deviation_energy_nonneg (r : R) :
  0 <= deviation_energy_along p D A_1 A_2 r.
Proof.
  destruct (weights_positive p Hpos) as [Hq [HwR [HwD [Hw1 [Hw2 Htot]]]]].
  unfold deviation_energy_along, deviation_energy.
  repeat apply Rplus_le_le_0_compat;
    (apply Rmult_le_pos;
     [apply Rlt_le, Rinv_0_lt_compat; assumption | apply Rle_0_sqr]).
Qed.

Lemma A2_deviation_bound (r : R) :
  (A_2 r - steady_state_A2 p) * (A_2 r - steady_state_A2 p)
  <= weight_A2 p * deviation_energy_along p D A_1 A_2 r.
Proof.
  destruct (weights_positive p Hpos) as [Hq [HwR [HwD [Hw1 [Hw2 Htot]]]]].
  set (V := deviation_energy_along p D A_1 A_2).
  set (dev := A_2 r - steady_state_A2 p).
  assert (Hterm : / weight_A2 p * (dev * dev) <= V r).
  { unfold V, deviation_energy_along, deviation_energy. fold dev.
    assert (H1 : 0 <= / weight_Roff p
                      * ((D r - steady_state_D p
                          + (A_1 r - steady_state_A1 p) + dev)
                         * (D r - steady_state_D p
                            + (A_1 r - steady_state_A1 p) + dev)))
      by (apply Rmult_le_pos;
          [apply Rlt_le, Rinv_0_lt_compat; assumption | apply Rle_0_sqr]).
    assert (H2 : 0 <= / weight_D p
                      * ((D r - steady_state_D p)
                         * (D r - steady_state_D p)))
      by (apply Rmult_le_pos;
          [apply Rlt_le, Rinv_0_lt_compat; assumption | apply Rle_0_sqr]).
    assert (H3 : 0 <= / weight_A1 p
                      * ((A_1 r - steady_state_A1 p)
                         * (A_1 r - steady_state_A1 p)))
      by (apply Rmult_le_pos;
          [apply Rlt_le, Rinv_0_lt_compat; assumption | apply Rle_0_sqr]).
    lra. }
  apply (Rmult_le_compat_l (weight_A2 p)) in Hterm; [|lra].
  replace (weight_A2 p * (/ weight_A2 p * (dev * dev)))
    with (dev * dev) in Hterm by (field; lra).
  exact Hterm.
Qed.

(** With no sites at all the trajectory from the zero state stays at
    zero. *)
Lemma A2_stays_zero :
  R_T p = 0 -> D 0 = 0 -> A_1 0 = 0 -> A_2 0 = 0 ->
  forall t, 0 <= t -> A_2 t = 0.
Proof.
  intros HRT HD0 HA10 HA20 t Ht.
  destruct (weights_positive p Hpos) as [Hq [HwR [HwD [Hw1 [Hw2 Htot]]]]].
  assert (Hs : steady_state_D p = 0 /\ steady_state_A1 p = 0 /\
               steady_state_A2 p = 0).
  { unfold steady_state_D, steady_state_A1, steady_state_A2, Rdiv.
    rewrite HRT. repeat split; ring. }
  destruct Hs as [HsD [Hs1 Hs2]].
  set (V := deviation_energy_along p D A_1 A_2).
  assert (HV0 : V 0 = 0).
  { unfold V, deviation_energy_along, deviation_energy.
    rewrite HsD, Hs1, Hs2, HD0, HA10, HA20. ring. }
  pose proof (deviation_energy_decay t Ht) as Hdecay.
  pose proof (deviation_energy_nonneg t) as HVt.
  pose proof (A2_deviation_bound t) as Hbound.
  fold V in Hdecay, HVt, Hbound.
  rewrite HV0 in Hdecay. rewrite Hs2, Rminus_0_r in Hbound.
  pose proof (exp_pos (2 * decay_rate p * t)) as Hexp.
  assert (HVzero : V t = 0) by nra.
  rewrite HVzero, Rmult_0_r in Hbound.
  nra.
Qed.

Lemma A2_converges :
  forall eps, 0 < eps ->
    exists T, forall t, T <= t -> Rabs (A_2 t - steady_state_A2 p) < eps.
Proof.
  intros eps Heps.
  destruct (weights_positive p Hpos) as [Hq [HwR [HwD [Hw1 [Hw2 Htot]]]]].
  destruct (decay_rate_bounds p Hpos) as [Hl0 _].
  set (lam := decay_rate p) in *.
  set (V := deviation_energy_along p D A_1 A_2).
  pose proof (deviation_energy_nonneg 0) as HV0. fold V in HV0.
  set (K := weight_A2 p * V 0).
  assert (HK : 0 <= K) by (apply Rmult_le_pos; lra).
  assert (Hden : 0 < 2 * lam * (eps * eps)).
  { apply Rmult_lt_0_compat; [lra | apply Rmult_lt_0_compat; lra]. }
  exists (K / (2 * lam * (eps * eps)) + 1).
  intros t Ht.
  assert (HT : 0 < K / (2 * lam * (eps * eps)) + 1).
  { assert (0 <= K / (2 * lam * (eps * eps))).
    { unfold Rdiv. apply Rmult_le_pos; [exact HK|].
      apply Rlt_le, Rinv_0_lt_compat, Hden. }
    lra. }
  assert (Htpos : 0 < t) by lra.
  set (dev := A_2 t - steady_state_A2 p).
  pose proof (A2_deviation_bound t) as Hbound. fold dev V in Hbound.
  pose proof (deviation_energy_decay t ltac:(lra)) as Hdecay.
  fold lam V in Hdecay.
  pose proof (deviation_energy_nonneg t) as HVt. fold V in HVt.
  assert (Hlt : 0 < 2 * lam * t).
  { apply Rmult_lt_0_compat; lra. }
  assert (Hexp : 2 * lam * t <= exp (2 * lam * t)).
  { pose proof (exp_ineq1 (2 * lam * t) ltac:(lra)). lra. }
  (* e^2 * (2 lam t) <= K *)
  assert (Hmain : dev * dev * (2 * lam * t) <= K).
  { apply Rle_trans with (weight_A2 p * V t * exp (2 * lam * t)).
    - apply Rmult_le_compat;
        [apply Rle_0_sqr | lra | exact Hbound | exact Hexp].
    - unfold K. rewrite Rmult_assoc.
      apply Rmult_le_compat_l; lra. }
  assert (HKlt : K < 2 * lam * (eps * eps) * t).
  { assert (Hstep : 2 * lam * (eps * eps)
                    * (K / (2 * lam * (eps * eps)) + 1)
                    <= 2 * lam * (eps * eps) * t)
      by (apply Rmult_le_compat_l; lra).
    replace (2 * lam * (eps * eps) * (K / (2 * lam * (eps * eps)) + 1))
      with (K + 2 * lam * (eps * eps)) in Hstep by (field; lra).
    lra. }
  assert (Hsq : dev * dev < eps * eps).
  { apply (Rmult_lt_reg_r (2 * lam * t)); [exact Hlt|]. lra. }
  apply Rabs_def1; nra.
Qed.

End Settling.

(** C7: for every parameter tuple whose rate constants are all strictly
    positive (the total [R_T] being non-negative), along the trajectory
    obtained by integrating the model from the zero state, [A_2] is
    non-decreasing on an initial stretch of time and converges, as time
    tends to infinity, to a steady-state value (the share
    [weight_A2 / weight_total] of [R_T]). *)
Theorem A2_rises_early_and_settles :
  forall (p : params) (D A_1 A_2 : R -> R),
    positive_rates p ->
    0 <= R_T p ->
    solves p D A_1 A_2 ->
    D 0 = 0 -> A_1 0 = 0 -> A_2 0 = 0 ->
    (exists delta,
        0 < delta /\
        forall s t, 0 <= s -> s <= t -> t <= delta -> A_2 s <= A_2 t) /\
    (forall eps, 0 < eps ->
       exists T, forall t, T <= t ->
                 Rabs (A_2 t - steady_state_A2 p) < eps).
Proof.
  intros p D A_1 A_2 Hpos [HRT | HRT] Hsol HD0 HA10 HA20; split.
  - now apply (A2_nondecreasing_early p D A_1 A_2).
  - now apply (A2_converges p Hpos D A_1 A_2).
  - exists 1. split; [lra|].
    intros s t Hs Hst _.
    rewrite (A2_stays_zero p Hpos D A_1 A_2 Hsol (eq_sym HRT)
               HD0 HA10 HA20 s Hs).
    rewrite (A2_stays_zero p Hpos D A_1 A_2 Hsol (eq_sym HRT)
               HD0 HA10 HA20 t ltac:(lra)).
    lra.
  - now apply (A2_converges p Hpos D A_1 A_2).
Qed.

Lemma exponentials_derivative (a b c d t : R) :
  derivable_pt_lim
    (fun s => a + b * exp (-1 * s) + c * exp (-3 * s) + d * exp (-4 * s)) t
    (b * (exp (-1 * t) * -1) + c * (exp (-3 * t) * -3)
     + d * (exp (-4 * t) * -4)).
Proof.
  apply (affine_derivative a b c d
           (fun s => exp (-1 * s)) (fun s => exp (-3 * s))
           (fun s => exp (-4 * s)));
    apply exp_scaled_derivative.
Qed.

Lemma example_solves :
  solves example_params example_D example_A1 example_A2.
Proof.
  intros t _. repeat split.
  - apply (derivable_pt_lim_ext
             (fun s => 1 / 4 + 0 * exp (-1 * s) + 0 * exp (-3 * s)
                       + (- / 4) * exp (-4 * s))).
    { intros s. unfold example_D. field. }
    replace (dD_dt example_params (example_D t) (example_A1 t)
                   (example_A2 t))
      with (0 * (exp (-1 * t) * -1) + 0 * (exp (-3 * t) * -3)
            + (- / 4) * (exp (-4 * t) * -4))
      by (unfold dD_dt, example_D, example_A1, example_A2; simpl; field).
    apply exponentials_derivative.
  - apply (derivable_pt_lim_ext
             (fun s => 1 / 6 + (- / 6) * exp (-1 * s)
                       + (- / 6) * exp (-3 * s) + (/ 6) * exp (-4 * s))).
    { intros s. unfold example_A1. field. }
    replace (dA1_dt example_params (example_D t) (example_A1 t)
                    (example_A2 t))
      with ((- / 6) * (exp (-1 * t) * -1) + (- / 6) * (exp (-3 * t) * -3)
            + (/ 6) * (exp (-4 * t) * -4))
      by (unfold dA1_dt, example_D, example_A1, example_A2; simpl; field).
    apply exponentials_derivative.
  - apply (derivable_pt_lim_ext
             (fun s => 1 / 12 + (- / 6) * exp (-1 * s)
                       + (/ 6) * exp (-3 * s) + (- / 12) * exp (-4 * s))).
    { intros s. unfold example_A2. field. }
    replace (dA2_dt example_params (example_D t) (example_A1 t)
                    (example_A2 t))
      with ((- / 6) * (exp (-1 * t) * -1) + (/ 6) * (exp (-3 * t) * -3)
            + (- / 12) * (exp (-4 * t) * -4))
      by (unfold dA2_dt, example_D, example_A1, example_A2; simpl; field).
    apply exponentials_derivative.
Qed.

Lemma example_params_positive : positive_rates example_params.
Proof. unfold positive_rates. simpl. repeat split; lra. Qed.

Lemma example_starts_at_zero :
  example_D 0 = 0 /\ example_A1 0 = 0 /\ example_A2 0 = 0.
Proof.
  unfold example_D, example_A1, example_A2.
  rewrite !Rmult_0_r, exp_0. repeat split; lra.
Qed.

Lemma A2_rises_early_and_settles_witness :
  (exists delta,
      0 < delta /\
      forall s t, 0 <= s -> s <= t -> t <= delta ->
                  example_A2 s <= example_A2 t) /\
  (forall eps, 0 < eps ->
     exists T, forall t, T <= t ->
               Rabs (example_A2 t - steady_state_A2 example_params) < eps).
Proof.
  exact (A2_rises_early_and_settles example_params
           example_D example_A1 example_A2
           example_params_positive (Rlt_le 0 1 Rlt_0_1) example_solves
           (proj1 example_starts_at_zero)
           (proj1 (proj2 example_starts_at_zero))
           (proj2 (proj2 example_starts_at_zero))).
Defined.

(** * Part III: further properties of the code *)

(** ** The derivative function and the k_dev cell *)

Lemma rhs_wrong_length (hp : heap) (y : addr) (t : R) (p : params)
      (v : list R) :
  nth_error hp y = Some v -> length v <> 3%nat ->
  rhs y t p hp = (Raise ValueError, hp).
Proof.
  intros Hy Hlen. unfold rhs, bind, load. rewrite Hy.
  destruct v as [|a [|b [|c [|d v]]]]; try reflexivity.
  now elim Hlen.
Qed.

(** X1: a state vector that does not hold exactly three numbers makes the
    unpacking [D, A_1, A_2 = y] raise [ValueError], in the notebook's [rhs]
    and in the widget's alike; nothing is allocated before the error. *)
Theorem rhs_rejects_wrong_length :
  forall (hp : heap) (y : addr) (t : R) (p : params) (v : list R),
    nth_error hp y = Some v -> length v <> 3%nat ->
    rhs y t p hp = (Raise ValueError, hp) /\
    ReactionWidget.rhs y t p hp = (Raise ValueError, hp).
Proof.
  intros hp y t p v Hy Hlen. split.
  - now apply (rhs_wrong_length hp y t p v).
  - rewrite widget_rhs_agrees. now apply (rhs_wrong_length hp y t p v).
Qed.

Lemma rhs_rejects_wrong_length_witness :
  rhs 0%nat 0 notebook_params [[1; 2]] = (Raise ValueError, [[1; 2]]).
Proof.
  refine (proj1 (rhs_rejects_wrong_length [[1; 2]] 0%nat 0 notebook_params
                   [1; 2] eq_refl _)).
  simpl. lia.
Defined.

Lemma k_dev_empty (time : list R) : k_dev time [] = Raise IndexError.
Proof.
  unfold k_dev. now rewrite getitem_empty.
Qed.

Lemma first_crossing_in_bounds (a : list R) (c : R) (i : nat) :
  first_crossing a c i -> (i < length a)%nat.
Proof.
  intros [[x [Hx _]] _]. apply nth_error_Some. congruence.
Qed.

(** Some sample reaches the threshold exactly when there is a first one. *)
Lemma crossing_exists_iff (a : list R) (c : R) :
  (exists x, In x a /\ c <= x) <-> exists i, first_crossing a c i.
Proof.
  split.
  - intros [x [Hin Hx]].
    destruct (while_loop_cases a c (length a) 0 (S (length a))
                ltac:(lia) ltac:(lia))
      as [[i [z [Hi [Hz [Hcz [Hbelow _]]]]]] | [Hbelow _]].
    + exists i. split; [exists z; auto|].
      intros j y Hj Hy. apply (Hbelow j y); [lia | assumption].
    + apply In_nth_error in Hin as [j Hj].
      specialize (Hbelow j x ltac:(lia) Hj). lra.
  - intros [i [[x [Hx Hcx]] _]]. exists x. split; [|exact Hcx].
    eapply nth_error_In, Hx.
Qed.

(** X2: for a trajectory with one sample per time, the k_dev cell returns
    exactly when some sample reaches [f_half = (1 - 1/e) * A_2[-1]]: it then
    reports [1 / t_half] at the first such sample; otherwise (the empty
    trajectory included) it raises [IndexError]. *)
Theorem k_dev_returns_iff_threshold_reached :
  forall (time A_2 : list R),
    length time = length A_2 ->
    let f_half := (1 - 1 / e) * last A_2 0 in
    ((exists x, In x A_2 /\ f_half <= x) ->
     exists i t_half,
       first_crossing A_2 f_half i /\ nth_error time i = Some t_half /\
       k_dev time A_2 = Return (true_divide 1 t_half)) /\
    (~ (exists x, In x A_2 /\ f_half <= x) ->
     k_dev time A_2 = Raise IndexError).
Proof.
  intros time A_2 Hlen f_half. split.
  - intros Hex.
    assert (Hne : A_2 <> []).
    { destruct Hex as [x [Hin _]]. intros ->. exact Hin. }
    apply crossing_exists_iff in Hex as [i Hfirst].
    pose proof (first_crossing_in_bounds _ _ _ Hfirst) as Hi.
    destruct (nth_error time i) as [t_half|] eqn:Ht.
    2:{ apply nth_error_None in Ht. lia. }
    exists i, t_half. repeat split; try assumption.
    + destruct Hfirst as [Hx _]. exact Hx.
    + destruct Hfirst as [_ Hb]. exact Hb.
    + rewrite (k_dev_at_first_crossing time A_2 i Hne Hfirst).
      now rewrite Ht.
  - intros Hno.
    destruct A_2 as [|a0 A_2']; [apply k_dev_empty|].
    apply k_dev_never_reached; [discriminate|].
    intros x Hin.
    destruct (Rlt_dec x f_half) as [Hlt | Hge]; [exact Hlt|].
    exfalso. apply Hno. exists x. split; [exact Hin|].
    now apply Rnot_lt_le.
Qed.

Lemma k_dev_returns_iff_threshold_reached_witness :
  k_dev [0; 1] [-2; -1] = Raise IndexError.
Proof.
  refine (proj2 (k_dev_returns_iff_threshold_reached [0; 1] [-2; -1]
                   eq_refl) _).
  pose proof threshold_factor_bounds as [Hlo Hhi].
  intros [x [[<- | [<- | []]] Hx]]; simpl in Hx; nra.
Defined.

(** ** Rescaling the trajectory *)

Lemma last_scaled (c : R) (a : list R) :
  last (map (Rmult c) a) 0 = c * last a 0.
Proof.
  induction a as [|x [|y a] IH].
  - simpl. ring.
  - reflexivity.
  - change (last (map (Rmult c) (y :: a)) 0 = c * last (y :: a) 0).
    exact IH.
Qed.

Lemma first_crossing_scaled (c th : R) (a : list R) (i : nat) :
  0 < c ->
  first_crossing a th i -> first_crossing (map (Rmult c) a) (c * th) i.
Proof.
  intros Hc [[x [Hx Hthx]] Hbelow]. split.
  - exists (c * x). split.
    + rewrite nth_error_map, Hx. reflexivity.
    + apply Rmult_le_compat_l; lra.
  - intros j y Hj Hy.
    rewrite nth_error_map in Hy.
    destruct (nth_error a j) as [z|] eqn:Hz; [|discriminate].
    injection Hy as <-.
    apply Rmult_lt_compat_l; [exact Hc|].
    now apply (Hbelow j z).
Qed.

Lemma k_dev_scaled (c : R) (time A_2 : list R) :
  0 < c -> k_dev time (map (Rmult c) A_2) = k_dev time A_2.
Proof.
  intros Hc.
  destruct A_2 as [|a0 A_2']; [reflexivity|].
  set (A_2 := a0 :: A_2').
  assert (Hne : A_2 <> []) by discriminate.
  assert (Hne' : map (Rmult c) A_2 <> []) by discriminate.
  assert (Hth : (1 - 1 / e) * last (map (Rmult c) A_2) 0
                = c * ((1 - 1 / e) * last A_2 0)).
  { rewrite last_scaled. ring. }
  destruct (k_dev_outcomes time A_2 Hne) as [[i [Hfirst Hrun]] | [Hall Hrun]].
  - rewrite Hrun.
    apply (first_crossing_scaled c _ _ _ Hc) in Hfirst.
    rewrite <- Hth in Hfirst.
    now rewrite (k_dev_at_first_crossing time _ i Hne' Hfirst).
  - rewrite Hrun.
    apply k_dev_never_reached; [exact Hne'|].
    intros x Hin. rewrite Hth.
    apply in_map_iff in Hin as [z [<- Hz]].
    apply Rmult_lt_compat_l; [exact Hc|]. now apply Hall.
Qed.

(** X3: the k_dev cell does not depend on the unit of force: multiplying
    every [A_2] sample by a positive constant leaves its outcome (value or
    error) unchanged. *)
Theorem k_dev_ignores_force_scale :
  forall (c : R) (time A_2 : list R),
    0 < c -> k_dev time (map (Rmult c) A_2) = k_dev time A_2.
Proof.
  intros c time A_2 Hc. now apply k_dev_scaled.
Qed.

Lemma k_dev_ignores_force_scale_witness :
  k_dev [0; 2] (map (Rmult 3) [0; 1]) = k_dev [0; 2] [0; 1].
Proof.
  apply (k_dev_ignores_force_scale 3 [0; 2] [0; 1]). lra.
Defined.

(** ** What the cell can report *)

Lemma true_divide_one_shape (t : R) :
  (t = 0 /\ true_divide 1 t = PosInf) \/
  (t <> 0 /\ true_divide 1 t = Finite (1 / t)).
Proof.
  destruct (Req_dec t 0) as [-> | Hne].
  - left. split; [reflexivity | apply true_divide_one_by_zero].
  - right. split; [exact Hne | now apply true_divide_nonzero].
Qed.

Lemma k_dev_return_shape (time A_2 : list R) (v : float64) :
  k_dev time A_2 = Return v ->
  exists i t_half,
    first_crossing A_2 ((1 - 1 / e) * last A_2 0) i /\
    nth_error time i = Some t_half /\ v = true_divide 1 t_half.
Proof.
  intros Hrun.
  destruct A_2 as [|a0 A_2'].
  { rewrite k_dev_empty in Hrun. discriminate. }
  destruct (k_dev_outcomes time (a0 :: A_2') ltac:(discriminate))
    as [[i [Hfirst Hk]] | [_ Hk]]; rewrite Hk in Hrun; [|discriminate].
  destruct (nth_error time i) as [t_half|] eqn:Ht; [|discriminate].
  exists i, t_half.
  split; [exact Hfirst|]. split; [exact Ht|].
  injection Hrun as <-. reflexivity.
Qed.



(** ** Rescaling the time axis *)

Lemma k_dev_time_scaled (c k : R) (time A_2 : list R) :
  0 < c ->
  k_dev time A_2 = Return (Finite k) ->
  k_dev (map (Rmult c) time) A_2 = Return (Finite (k / c)).
Proof.
  intros Hc Hrun.
  destruct (k_dev_return_shape time A_2 _ Hrun)
    as [i [t_half [Hfirst [Ht Hv]]]].
  assert (Hne : A_2 <> []).
  { intros ->. destruct Hfirst as [[x [Hx _]] _].
    destruct i; discriminate. }
  destruct (true_divide_one_shape t_half) as [[_ Hinf] | [Hnz Hfin]].
  { rewrite Hinf in Hv. discriminate. }
  rewrite Hfin in Hv. injection Hv as ->.
  rewrite (k_dev_at_first_crossing _ A_2 i Hne Hfirst).
  rewrite nth_error_map, Ht. simpl.
  rewrite true_divide_nonzero by (apply Rmult_integral_contrapositive; lra).
  f_equal. f_equal. field. lra.
Qed.

(** X5: k_dev is a rate: stretching the time axis by a positive factor [c]
    divides a finite reported value by [c]. *)
Theorem k_dev_scales_inversely_with_time_unit :
  forall (c k : R) (time A_2 : list R),
    0 < c ->
    k_dev time A_2 = Return (Finite k) ->
    k_dev (map (Rmult c) time) A_2 = Return (Finite (k / c)).
Proof.
  intros c k time A_2 Hc Hrun. now apply k_dev_time_scaled.
Qed.

Lemma k_dev_scales_inversely_with_time_unit_witness :
  k_dev (map (Rmult 1000) [0; 2]) [0; 1] = Return (Finite (1 / 2 / 1000)).
Proof.
  apply (k_dev_scales_inversely_with_time_unit 1000 (1 / 2) [0; 2] [0; 1]).
  - lra.
  - rewrite (k_dev_at_first_crossing [0; 2] [0; 1] 1 ltac:(discriminate)
               rising_first_crossing).
    simpl. rewrite true_divide_nonzero by lra. reflexivity.
Defined.

(** ** The widget's report *)

Lemma INR_4999 : INR 4999 = 4999.
Proof. rewrite INR_IZR_INZ. reflexivity. Qed.

Lemma last_of_nth_error (a : list R) (x : R) :
  nth_error a (length a - 1) = Some x -> last a 0 = x.
Proof.
  intros Hx.
  assert (Hne : a <> []).
  { intros ->. discriminate. }
  rewrite (nth_error_last a 0 Hne) in Hx. congruence.
Qed.

Lemma widget_report_bounds
      (odeint : (addr -> R -> params -> M addr) -> R * R * R -> list R ->
                params -> list (R * R * R))
      (k_on f h g : R) :
  let solutions :=
    odeint ReactionWidget.rhs (0, 0, 0) (linspace 0 10 5000)
           (Params 1 k_on 50 f 400 h 6 g) in
  let A_2 := map (fun row => snd row) solutions in
  length solutions = 5000%nat ->
  nth_error A_2 0 = Some 0 ->
  0 < last A_2 0 ->
  exists k,
    ReactionWidget.printed (ReactionWidget.solve_and_plot odeint k_on f h g)
    = Return (Finite k) /\ 1 / 10 <= k <= 4999 / 10.
Proof.
  intros solutions A_2 Hlen Hfirst0 Hlast.
  rewrite solve_and_plot_unfold. cbv zeta. cbn [ReactionWidget.printed].
  fold solutions. fold A_2.
  assert (HlenA : length A_2 = 5000%nat)
    by (unfold A_2; now rewrite length_map).
  assert (Hne : A_2 <> []).
  { intros Heq. rewrite Heq in HlenA. discriminate. }
  pose proof threshold_factor_bounds as [Hlo Hhi].
  set (f_half := (1 - 1 / e) * last A_2 0).
  assert (Hhalf : 0 < f_half) by (unfold f_half; nra).
  assert (Hex : exists x, In x A_2 /\ f_half <= x).
  { exists (last A_2 0). split; [now apply last_In|].
    apply threshold_le_final. lra. }
  apply crossing_exists_iff in Hex as [i Hcross].
  pose proof (first_crossing_in_bounds _ _ _ Hcross) as Hi.
  rewrite HlenA in Hi.
  assert (Hi0 : (1 <= i)%nat).
  { destruct i as [|i]; [|lia].
    destruct Hcross as [[x [Hx Hcx]] _].
    rewrite Hfirst0 in Hx. injection Hx as <-. lra. }
  rewrite (k_dev_at_first_crossing _ A_2 i Hne Hcross).
  rewrite (linspace_nth 0 10 5000 i Hi).
  change (5000 - 1)%nat with 4999%nat. rewrite INR_4999.
  assert (HiR : 1 <= INR i <= 4999).
  { split.
    - change 1 with (INR 1). apply le_INR. exact Hi0.
    - rewrite <- INR_4999. apply le_INR. lia. }
  set (t_half := 0 + INR i * ((10 - 0) / 4999)).
  assert (Ht : 10 / 4999 <= t_half <= 10) by (unfold t_half; lra).
  exists (1 / t_half). split.
  - rewrite true_divide_nonzero by lra. reflexivity.
  - split.
    + apply Rmult_le_reg_r with t_half; [lra|].
      field_simplify; lra.
    + apply Rmult_le_reg_r with t_half; [lra|].
      field_simplify; lra.
Qed.

(** X6: for any slider values, if the integrator answers one row per grid
    time, the force starts at zero and ends positive, the widget prints a
    finite k_dev between [1/10] and [4999/10] (the reciprocals of the last
    and of the first positive grid time). *)
Theorem widget_reports_finite_k_dev :
  forall (odeint : (addr -> R -> params -> M addr) -> R * R * R ->
                   list R -> params -> list (R * R * R))
         (k_on f h g : R),
    let solutions :=
      odeint ReactionWidget.rhs (0, 0, 0) (linspace 0 10 5000)
             (Params 1 k_on 50 f 400 h 6 g) in
    let A_2 := map (fun row => snd row) solutions in
    length solutions = 5000%nat ->
    nth_error A_2 0 = Some 0 ->
    0 < last A_2 0 ->
    exists k,
      ReactionWidget.printed
        (ReactionWidget.solve_and_plot odeint k_on f h g)
      = Return (Finite k) /\ 1 / 10 <= k <= 4999 / 10.
Proof.
  intros odeint k_on f h g. apply widget_report_bounds.
Qed.

Lemma ramp_third_column (t : list R) :
  map (fun row : R * R * R => snd row) (map (fun s => (0, 0, s)) t) = t.
Proof.
  rewrite map_map. simpl. apply map_id.
Qed.

Lemma widget_reports_finite_k_dev_witness :
  exists k,
    ReactionWidget.printed
      (ReactionWidget.solve_and_plot ramp_odeint 400 50 8 4)
    = Return (Finite k) /\ 1 / 10 <= k <= 4999 / 10.
Proof.
  apply (widget_reports_finite_k_dev ramp_odeint 400 50 8 4).
  - unfold ramp_odeint. now rewrite length_map, linspace_length.
  - unfold ramp_odeint. rewrite ramp_third_column.
    apply linspace_first. lia.
  - unfold ramp_odeint. rewrite ramp_third_column.
    rewrite (last_of_nth_error (linspace 0 10 5000) 10).
    + lra.
    + rewrite linspace_length. apply (linspace_last 0 10 5000). lia.
Defined.

(** ** The widget against the notebook *)

Lemma widget_rhs_is_rhs : ReactionWidget.rhs = rhs.
Proof. reflexivity. Qed.

(** X7: with the sliders at the notebook's values of [k_on], [f], [h] and
    [g], the widget integrates the same problem as the notebook (same
    derivative function, initial state, time grid and fixed constants): it
    prints the notebook's [ktr] and plots the columns of the notebook's
    [solutions]. *)
Theorem widget_at_notebook_values_reproduces_notebook :
  forall (odeint : (addr -> R -> params -> M addr) -> R * R * R ->
                   list R -> params -> list (R * R * R)),
    ReactionWidget.printed
      (ReactionWidget.solve_and_plot odeint (k_on notebook_params)
         (f notebook_params) (h notebook_params) (g notebook_params))
    = Notebook.ktr odeint /\
    map snd (ReactionWidget.curves
               (ReactionWidget.solve_and_plot odeint (k_on notebook_params)
                  (f notebook_params) (h notebook_params)
                  (g notebook_params)))
    = [map (fun row => fst (fst row)) (Notebook.solutions odeint);
       map (fun row => snd (fst row)) (Notebook.solutions odeint);
       map (fun row => snd row) (Notebook.solutions odeint);
       map (fun row => snd row) (Notebook.solutions odeint)].
Proof.
  intros odeint.
  rewrite solve_and_plot_unfold. cbv zeta.
  unfold Notebook.ktr, Notebook.solutions, Notebook.time, hsplit3, y_0,
    notebook_params.
  cbn [ReactionWidget.printed ReactionWidget.curves map snd fst
       k_on f h g].
  rewrite widget_rhs_is_rhs. split; reflexivity.
Qed.

(** ** More on the dynamics *)

Lemma deviation_component_bounds (p : params) (eD e1 e2 : R) :
  positive_rates p ->
  eD * eD <= weight_D p * deviation_energy p eD e1 e2 /\
  e1 * e1 <= weight_A1 p * deviation_energy p eD e1 e2 /\
  e2 * e2 <= weight_A2 p * deviation_energy p eD e1 e2.
Proof.
  intros Hpos.
  destruct (weights_positive p Hpos) as [Hq [HwR [HwD [Hw1 [Hw2 Htot]]]]].
  unfold deviation_energy.
  set (tR := / weight_Roff p * ((eD + e1 + e2) * (eD + e1 + e2))).
  set (tD := / weight_D p * (eD * eD)).
  set (t1 := / weight_A1 p * (e1 * e1)).
  set (t2 := / weight_A2 p * (e2 * e2)).
  assert (HtR : 0 <= tR)
    by (apply Rmult_le_pos;
        [apply Rlt_le, Rinv_0_lt_compat; assumption | apply Rle_0_sqr]).
  assert (HtD : 0 <= tD)
    by (apply Rmult_le_pos;
        [apply Rlt_le, Rinv_0_lt_compat; assumption | apply Rle_0_sqr]).
  assert (Ht1 : 0 <= t1)
    by (apply Rmult_le_pos;
        [apply Rlt_le, Rinv_0_lt_compat; assumption | apply Rle_0_sqr]).
  assert (Ht2 : 0 <= t2)
    by (apply Rmult_le_pos;
        [apply Rlt_le, Rinv_0_lt_compat; assumption | apply Rle_0_sqr]).
  assert (HeD : eD * eD = weight_D p * tD) by (unfold tD; field; lra).
  assert (He1 : e1 * e1 = weight_A1 p * t1) by (unfold t1; field; lra).
  assert (He2 : e2 * e2 = weight_A2 p * t2) by (unfold t2; field; lra).
  rewrite HeD, He1, He2.
  repeat split; apply Rmult_le_compat_l; lra.
Qed.

Lemma square_zero (x : R) : x * x <= 0 -> x = 0.
Proof. intros Hx. nra. Qed.

Lemma homogeneous_positive (p : params) :
  positive_rates p -> positive_rates (homogeneous p).
Proof. intros Hpos. exact Hpos. Qed.

Lemma no_sites_steady_state (p : params) :
  R_T p = 0 ->
  steady_state_D p = 0 /\ steady_state_A1 p = 0 /\ steady_state_A2 p = 0.
Proof.
  intros HRT.
  unfold steady_state_D, steady_state_A1, steady_state_A2, Rdiv.
  rewrite HRT. repeat split; ring.
Qed.

(** With no sites at all, a trajectory that starts at zero stays there. *)
Lemma no_sites_stays_zero (p : params) (D A_1 A_2 : R -> R) :
  positive_rates p -> R_T p = 0 ->
  solves p D A_1 A_2 ->
  D 0 = 0 -> A_1 0 = 0 -> A_2 0 = 0 ->
  forall t, 0 <= t -> D t = 0 /\ A_1 t = 0 /\ A_2 t = 0.
Proof.
  intros Hpos HRT Hsol HD0 HA10 HA20 t Ht.
  destruct (weights_positive p Hpos) as [Hq [HwR [HwD [Hw1 [Hw2 Htot]]]]].
  destruct (no_sites_steady_state p HRT) as [HsD [Hs1 Hs2]].
  set (V := deviation_energy_along p D A_1 A_2).
  assert (HV0 : V 0 = 0).
  { unfold V, deviation_energy_along, deviation_energy.
    rewrite HsD, Hs1, Hs2, HD0, HA10, HA20. ring. }
  pose proof (deviation_energy_decay p Hpos D A_1 A_2 Hsol t Ht) as Hdecay.
  pose proof (deviation_energy_nonneg p Hpos D A_1 A_2 t) as HVt.
  fold V in Hdecay, HVt. rewrite HV0 in Hdecay.
  pose proof (exp_pos (2 * decay_rate p * t)) as Hexp.
  assert (HVzero : V t = 0) by nra.
  destruct (deviation_component_bounds p (D t - steady_state_D p)
              (A_1 t - steady_state_A1 p) (A_2 t - steady_state_A2 p) Hpos)
    as [HbD [Hb1 Hb2]].
  change (deviation_energy p (D t - steady_state_D p)
            (A_1 t - steady_state_A1 p) (A_2 t - steady_state_A2 p))
    with (V t) in HbD, Hb1, Hb2.
  rewrite HVzero, Rmult_0_r in HbD, Hb1, Hb2.
  rewrite HsD, Rminus_0_r in HbD.
  rewrite Hs1, Rminus_0_r in Hb1.
  rewrite Hs2, Rminus_0_r in Hb2.
  repeat split; apply square_zero; assumption.
Qed.

Lemma difference_solves (p : params) (D A_1 A_2 D' A_1' A_2' : R -> R) :
  solves p D A_1 A_2 -> solves p D' A_1' A_2' ->
  solves (homogeneous p)
         (fun s => D s - D' s) (fun s => A_1 s - A_1' s)
         (fun s => A_2 s - A_2' s).
Proof.
  intros Hsol Hsol' t Ht.
  destruct (Hsol t Ht) as [HD [HA1 HA2]].
  destruct (Hsol' t Ht) as [HD' [HA1' HA2']].
  repeat split.
  - replace (dD_dt (homogeneous p) (D t - D' t) (A_1 t - A_1' t)
               (A_2 t - A_2' t))
      with (dD_dt p (D t) (A_1 t) (A_2 t)
            - dD_dt p (D' t) (A_1' t) (A_2' t))
      by (unfold dD_dt, homogeneous; simpl; ring).
    apply (derivable_pt_lim_minus D D'); assumption.
  - replace (dA1_dt (homogeneous p) (D t - D' t) (A_1 t - A_1' t)
               (A_2 t - A_2' t))
      with (dA1_dt p (D t) (A_1 t) (A_2 t)
            - dA1_dt p (D' t) (A_1' t) (A_2' t))
      by (unfold dA1_dt, homogeneous; simpl; ring).
    apply (derivable_pt_lim_minus A_1 A_1'); assumption.
  - replace (dA2_dt (homogeneous p) (D t - D' t) (A_1 t - A_1' t)
               (A_2 t - A_2' t))
      with (dA2_dt p (D t) (A_1 t) (A_2 t)
            - dA2_dt p (D' t) (A_1' t) (A_2' t))
      by (unfold dA2_dt, homogeneous; simpl; ring).
    apply (derivable_pt_lim_minus A_2 A_2'); assumption.
Qed.

(** X8: for positive rates the equations coded in [rhs] have at most one
    solution from a given initial state: two exact solutions that agree at
    time 0 agree at every later time. *)
Theorem trajectory_determined_by_initial_state :
  forall (p : params) (D A_1 A_2 D' A_1' A_2' : R -> R),
    positive_rates p ->
    solves p D A_1 A_2 -> solves p D' A_1' A_2' ->
    D 0 = D' 0 -> A_1 0 = A_1' 0 -> A_2 0 = A_2' 0 ->
    forall t, 0 <= t -> D t = D' t /\ A_1 t = A_1' t /\ A_2 t = A_2' t.
Proof.
  intros p D A_1 A_2 D' A_1' A_2' Hpos Hsol Hsol' HD0 HA10 HA20 t Ht.
  pose proof (difference_solves p D A_1 A_2 D' A_1' A_2' Hsol Hsol')
    as Hdiff.
  destruct (no_sites_stays_zero (homogeneous p) _ _ _
              (homogeneous_positive p Hpos) eq_refl Hdiff
              ltac:(lra) ltac:(lra) ltac:(lra) t Ht)
    as [H1 [H2 H3]].
  cbv beta in H1, H2, H3. repeat split; lra.
Qed.

Lemma steady_state_is_stationary (p : params) :
  positive_rates p ->
  solves p (fun _ => steady_state_D p) (fun _ => steady_state_A1 p)
         (fun _ => steady_state_A2 p).
Proof.
  intros Hpos t _.
  destruct (steady_state_fixed_point p Hpos) as [-> [-> ->]].
  repeat split; apply derivable_pt_lim_const.
Qed.

Lemma notebook_params_positive : positive_rates notebook_params.
Proof. unfold positive_rates. simpl. repeat split; lra. Qed.

Lemma trajectory_determined_by_initial_state_witness :
  steady_state_D notebook_params = steady_D /\
  steady_state_A1 notebook_params = steady_A1 /\
  steady_state_A2 notebook_params = steady_A2.
Proof.
  exact (trajectory_determined_by_initial_state notebook_params
           (fun _ => steady_state_D notebook_params)
           (fun _ => steady_state_A1 notebook_params)
           (fun _ => steady_state_A2 notebook_params)
           (fun _ => steady_D) (fun _ => steady_A1) (fun _ => steady_A2)
           notebook_params_positive
           (steady_state_is_stationary notebook_params
              notebook_params_positive)
           steady_state_solves
           (proj1 notebook_steady_state_agrees)
           (proj1 (proj2 notebook_steady_state_agrees))
           (proj2 (proj2 notebook_steady_state_agrees))
           1 (Rlt_le 0 1 Rlt_0_1)).
Defined.

(** The fixed point *)

Lemma fixed_point_is_steady_state (p : params) (D A_1 A_2 : R) :
  positive_rates p ->
  dD_dt p D A_1 A_2 = 0 -> dA1_dt p D A_1 A_2 = 0 ->
  dA2_dt p D A_1 A_2 = 0 ->
  D = steady_state_D p /\ A_1 = steady_state_A1 p /\
  A_2 = steady_state_A2 p.
Proof.
  intros Hpos HxD Hx1 Hx2.
  destruct (weights_positive p Hpos) as [Hq [HwR [HwD [Hw1 [Hw2 Htot]]]]].
  destruct (decay_rate_bounds p Hpos) as [Hlam _].
  destruct (rates_of_deviation p Hpos D A_1 A_2) as [HeD [He1 He2]].
  set (eD := D - steady_state_D p) in *.
  set (e1 := A_1 - steady_state_A1 p) in *.
  set (e2 := A_2 - steady_state_A2 p) in *.
  pose proof (deviation_dissipation p Hpos eD e1 e2) as Hdis.
  cbv zeta in Hdis.
  rewrite <- HeD, <- He1, <- He2, HxD, Hx1, Hx2 in Hdis.
  destruct (deviation_component_bounds p eD e1 e2 Hpos) as [HbD [Hb1 Hb2]].
  set (V := deviation_energy p eD e1 e2) in *.
  assert (HV : V <= 0).
  { assert (Hprod : 2 * decay_rate p * V <= 0) by lra.
    assert (H2l : 0 < 2 * decay_rate p) by lra.
    apply (Rmult_le_reg_l (2 * decay_rate p)); [exact H2l|]. lra. }
  assert (HzD : eD * eD <= 0).
  { apply Rle_trans with (weight_D p * V); [exact HbD|].
    assert (weight_D p * V <= weight_D p * 0)
      by (apply Rmult_le_compat_l; lra). lra. }
  assert (Hz1 : e1 * e1 <= 0).
  { apply Rle_trans with (weight_A1 p * V); [exact Hb1|].
    assert (weight_A1 p * V <= weight_A1 p * 0)
      by (apply Rmult_le_compat_l; lra). lra. }
  assert (Hz2 : e2 * e2 <= 0).
  { apply Rle_trans with (weight_A2 p * V); [exact Hb2|].
    assert (weight_A2 p * V <= weight_A2 p * 0)
      by (apply Rmult_le_compat_l; lra). lra. }
  apply square_zero in HzD, Hz1, Hz2.
  unfold eD, e1, e2 in HzD, Hz1, Hz2. repeat split; lra.
Qed.

Lemma steady_state_physically_valid (p : params) :
  positive_rates p -> 0 <= R_T p ->
  valid_state p (steady_state_D p) (steady_state_A1 p) (steady_state_A2 p).
Proof.
  intros Hpos HRT.
  destruct (weights_positive p Hpos) as [Hq [HwR [HwD [Hw1 [Hw2 Htot]]]]].
  assert (Hshare : forall w, 0 <= w -> 0 <= R_T p * w / weight_total p).
  { intros w Hw. unfold Rdiv.
    apply Rmult_le_pos; [apply Rmult_le_pos; assumption|].
    apply Rlt_le, Rinv_0_lt_compat, Htot. }
  unfold valid_state, steady_state_D, steady_state_A1, steady_state_A2.
  repeat split; try (apply Hshare; lra).
  replace (R_T p * weight_D p / weight_total p
           + R_T p * weight_A1 p / weight_total p
           + R_T p * weight_A2 p / weight_total p)
    with (R_T p - R_T p * weight_Roff p / weight_total p)
    by (unfold weight_total; field; unfold weight_total in Htot; lra).
  specialize (Hshare (weight_Roff p) ltac:(lra)). lra.
Qed.

(** X9: for positive rates the three derivatives of [rhs] vanish together
    at exactly one state, the steady state, which is a valid occupancy
    (non-negative, total at most [R_T]) when [R_T] is not negative. *)
Theorem unique_fixed_point :
  forall (p : params) (D A_1 A_2 : R),
    positive_rates p ->
    ((dD_dt p D A_1 A_2 = 0 /\ dA1_dt p D A_1 A_2 = 0 /\
      dA2_dt p D A_1 A_2 = 0)
     <-> (D = steady_state_D p /\ A_1 = steady_state_A1 p /\
          A_2 = steady_state_A2 p)) /\
    (0 <= R_T p ->
     valid_state p (steady_state_D p) (steady_state_A1 p)
                 (steady_state_A2 p)).
Proof.
  intros p D A_1 A_2 Hpos. split; [split|].
  - intros [H1 [H2 H3]]. now apply fixed_point_is_steady_state.
  - intros [-> [-> ->]]. now apply steady_state_fixed_point.
  - now apply steady_state_physically_valid.
Qed.

Lemma unique_fixed_point_witness :
  (dD_dt notebook_params steady_D steady_A1 steady_A2 = 0 /\
   dA1_dt notebook_params steady_D steady_A1 steady_A2 = 0 /\
   dA2_dt notebook_params steady_D steady_A1 steady_A2 = 0)
  <-> (steady_D = steady_state_D notebook_params /\
       steady_A1 = steady_state_A1 notebook_params /\
       steady_A2 = steady_state_A2 notebook_params).
Proof.
  exact (proj1 (unique_fixed_point notebook_params steady_D steady_A1
                  steady_A2 notebook_params_positive)).
Defined.

(** Convergence from any initial state *)

Lemma deviation_envelope (p : params) (D A_1 A_2 : R -> R) (t : R) :
  positive_rates p -> solves p D A_1 A_2 -> 0 <= t ->
  deviation_energy_along p D A_1 A_2 t
  <= deviation_energy_along p D A_1 A_2 0 * exp (- (2 * decay_rate p * t)).
Proof.
  intros Hpos Hsol Ht.
  pose proof (deviation_energy_decay p Hpos D A_1 A_2 Hsol t Ht) as Hdecay.
  pose proof (exp_pos (2 * decay_rate p * t)) as Hexp.
  rewrite exp_Ropp.
  apply (Rmult_le_reg_r (exp (2 * decay_rate p * t))); [exact Hexp|].
  replace (deviation_energy_along p D A_1 A_2 0
           * / exp (2 * decay_rate p * t) * exp (2 * decay_rate p * t))
    with (deviation_energy_along p D A_1 A_2 0) by (field; lra).
  exact Hdecay.
Qed.

(** X10: for positive rates every exact solution, from any initial state,
    approaches the steady state exponentially: the squared distance of each
    component is bounded by its weight times the initial deviation energy
    times [exp (-2 * decay_rate * t)], with a positive decay rate. *)
Theorem every_trajectory_relaxes_to_steady_state :
  forall (p : params) (D A_1 A_2 : R -> R),
    positive_rates p -> solves p D A_1 A_2 ->
    forall t, 0 <= t ->
      let bound := deviation_energy_along p D A_1 A_2 0
                   * exp (- (2 * decay_rate p * t)) in
      (D t - steady_state_D p) * (D t - steady_state_D p)
      <= weight_D p * bound /\
      (A_1 t - steady_state_A1 p) * (A_1 t - steady_state_A1 p)
      <= weight_A1 p * bound /\
      (A_2 t - steady_state_A2 p) * (A_2 t - steady_state_A2 p)
      <= weight_A2 p * bound /\
      0 < decay_rate p.
Proof.
  intros p D A_1 A_2 Hpos Hsol t Ht bound.
  destruct (weights_positive p Hpos) as [Hq [HwR [HwD [Hw1 [Hw2 Htot]]]]].
  pose proof (deviation_envelope p D A_1 A_2 t Hpos Hsol Ht) as Henv.
  fold bound in Henv.
  destruct (deviation_component_bounds p (D t - steady_state_D p)
              (A_1 t - steady_state_A1 p) (A_2 t - steady_state_A2 p) Hpos)
    as [HbD [Hb1 Hb2]].
  change (deviation_energy p (D t - steady_state_D p)
            (A_1 t - steady_state_A1 p) (A_2 t - steady_state_A2 p))
    with (deviation_energy_along p D A_1 A_2 t) in HbD, Hb1, Hb2.
  destruct (decay_rate_bounds p Hpos) as [Hlam _].
  repeat split; try exact Hlam.
  - eapply Rle_trans; [exact HbD|]. apply Rmult_le_compat_l; lra.
  - eapply Rle_trans; [exact Hb1|]. apply Rmult_le_compat_l; lra.
  - eapply Rle_trans; [exact Hb2|]. apply Rmult_le_compat_l; lra.
Qed.

Lemma every_trajectory_relaxes_to_steady_state_witness :
  (example_A2 1 - steady_state_A2 example_params)
  * (example_A2 1 - steady_state_A2 example_params)
  <= weight_A2 example_params
     * (deviation_energy_along example_params
          example_D example_A1 example_A2 0
        * exp (- (2 * decay_rate example_params * 1))).
Proof.
  exact (proj1 (proj2 (proj2
           (every_trajectory_relaxes_to_steady_state example_params
              example_D example_A1 example_A2 example_params_positive
              example_solves 1 (Rlt_le 0 1 Rlt_0_1))))).
Defined.

(** * The FitzHugh-Nagumo notebook *)

(** ** Boundary condition and stimulus *)

Lemma BC_U_and_stim_cases (t : R) :
  (t < 6 /\ FitzhughNagumo.BC_U_and_stim t
            = ([FitzhughNagumo.DirichletBC_left_edge 1],
               FitzhughNagumo.Constant 0)) \/
  (150 < t < 156 /\ FitzhughNagumo.BC_U_and_stim t
                    = ([], FitzhughNagumo.Stimulus (8 / 10))) \/
  (6 <= t /\ ~ 150 < t < 156 /\
   FitzhughNagumo.BC_U_and_stim t = ([], FitzhughNagumo.Constant 0)).
Proof.
  unfold FitzhughNagumo.BC_U_and_stim. cbv zeta.
  destruct (Rlt_dec t 6) as [H6 | H6].
  - left. split; [exact H6 | reflexivity].
  - right.
    destruct (Rgt_dec t 150) as [H150 | H150].
    + destruct (Rlt_dec t (150 + 6)) as [H156 | H156].
      * left. split; [unfold Rgt in H150; lra | reflexivity].
      * right. split; [lra | split; [lra | reflexivity]].
    + right. unfold Rgt in H150.
      split; [lra | split; [lra | reflexivity]].
Qed.

Lemma stimulus_eval (amp : R) (x : R * R) :
  (fst x < 125 / 100 /\ snd x < 125 / 100 /\
   FitzhughNagumo.eval (FitzhughNagumo.Stimulus amp) x = amp) \/
  (~ (fst x < 125 / 100 /\ snd x < 125 / 100) /\
   FitzhughNagumo.eval (FitzhughNagumo.Stimulus amp) x = 0).
Proof.
  unfold FitzhughNagumo.eval.
  destruct (Rlt_dec (fst x) (125 / 100)) as [H0 | H0].
  - destruct (Rlt_dec (snd x) (125 / 100)) as [H1 | H1].
    + left. auto.
    + right. split; [tauto | reflexivity].
  - right. split; [tauto | reflexivity].
Qed.

(** X11: [BC_U_and_stim] returns a Dirichlet condition ([u = 1] on the left
    edge, the only one it ever returns) exactly for [t < 6] and a source
    term that is not identically zero exactly for [150 < t < 156]; whenever
    a boundary condition is returned the source term is zero everywhere. *)
Theorem boundary_condition_and_stimulus_never_together :
  forall t : R,
    let bcs := fst (FitzhughNagumo.BC_U_and_stim t) in
    let stim := snd (FitzhughNagumo.BC_U_and_stim t) in
    (bcs <> [] <-> t < 6) /\
    (bcs <> [] -> bcs = [FitzhughNagumo.DirichletBC_left_edge 1]) /\
    ((exists x, FitzhughNagumo.eval stim x <> 0) <-> 150 < t < 156) /\
    (bcs <> [] -> forall x, FitzhughNagumo.eval stim x = 0).
Proof.
  intros t bcs stim. unfold bcs, stim.
  destruct (BC_U_and_stim_cases t)
    as [[Ht ->] | [[Ht ->] | [Ht [Hn ->]]]]; cbn [fst snd].
  - split; [|split; [|split]].
    + split; [intros _; exact Ht | discriminate].
    + reflexivity.
    + split; [intros [x Hx]; now elim Hx | lra].
    + reflexivity.
  - split; [|split; [|split]].
    + split; [intros H; now elim H | lra].
    + intros H. now elim H.
    + split; [intros _; exact Ht|].
      intros _. exists (0, 0).
      destruct (stimulus_eval (8 / 10) (0, 0)) as [[_ [_ ->]] | [Hno _]].
      * lra.
      * exfalso. apply Hno. simpl. lra.
    + intros H. now elim H.
  - split; [|split; [|split]].
    + split; [intros H; now elim H | lra].
    + intros H. now elim H.
    + split; [intros [x Hx]; now elim Hx | intros H; now elim Hn].
    + intros H. now elim H.
Qed.

(** X12: the source term returned by [BC_U_and_stim] takes only the values
    [0] and [0.8]; it is [0.8] exactly at the points with both coordinates
    below [1.25] during [150 < t < 156]. *)
Theorem stimulus_is_a_bounded_quarter_patch :
  forall (t : R) (x : R * R),
    let stim := snd (FitzhughNagumo.BC_U_and_stim t) in
    0 <= FitzhughNagumo.eval stim x <= 8 / 10 /\
    (FitzhughNagumo.eval stim x <> 0 <->
     150 < t < 156 /\ fst x < 125 / 100 /\ snd x < 125 / 100) /\
    (FitzhughNagumo.eval stim x <> 0 ->
     FitzhughNagumo.eval stim x = 8 / 10).
Proof.
  intros t x stim. unfold stim.
  destruct (BC_U_and_stim_cases t)
    as [[Ht ->] | [[Ht ->] | [Ht [Hn ->]]]]; cbn [fst snd].
  - cbn [FitzhughNagumo.eval]. split; [lra | split].
    + split; [intros H; now elim H | lra].
    + intros H. now elim H.
  - destruct (stimulus_eval (8 / 10) x) as [[H0 [H1 ->]] | [Hno ->]].
    + split; [lra | split].
      * split; [intros _; auto | lra].
      * reflexivity.
    + split; [lra | split].
      * split; [intros H; now elim H | intros [_ H]; now elim Hno].
      * intros H. now elim H.
  - cbn [FitzhughNagumo.eval]. split; [lra | split].
    + split; [intros H; now elim H | intros [H _]; now elim Hn].
    + intros H. now elim H.
Qed.

(** ** The time loop *)

Section DriverFacts.

Variable state : Type.
Variable newton :
  state -> list FitzhughNagumo.DirichletBC -> FitzhughNagumo.expression ->
  state.

Lemma dict_set_fresh {V : Type} (d : FitzhughNagumo.dict V) (k : Z) (v : V) :
  ~ In k (FitzhughNagumo.keys d) ->
  FitzhughNagumo.dict_set d k v = d ++ [(k, v)].
Proof.
  induction d as [|[k' v'] d IH]; intros Hnew.
  - reflexivity.
  - simpl in *.
    destruct (Z.eq_dec k' k) as [-> | Hne]; [tauto|].
    f_equal. apply IH. tauto.
Qed.

Lemma entries_keys (dt : R) (U0 : state) (k : nat) :
  FitzhughNagumo.keys (FitzhughNagumo.entries state newton dt U0 k)
  = map Z.of_nat (seq 1 k).
Proof.
  unfold FitzhughNagumo.keys, FitzhughNagumo.entries.
  rewrite map_map. reflexivity.
Qed.

Lemma entries_step (dt : R) (U0 : state) (k : nat) :
  FitzhughNagumo.dict_set
    (FitzhughNagumo.entries state newton dt U0 k) (Z.of_nat (S k))
    (INR (S k) * dt, FitzhughNagumo.state_after state newton dt U0 (S k))
  = FitzhughNagumo.entries state newton dt U0 (S k).
Proof.
  rewrite dict_set_fresh.
  - unfold FitzhughNagumo.entries. rewrite seq_S, map_app. reflexivity.
  - rewrite entries_keys. intros Hin.
    apply in_map_iff in Hin as [j [Hj Hin]].
    apply in_seq in Hin. lia.
Qed.

Lemma time_loop_from (dt T : R) (N : nat) (U0 : state) :
  0 < dt -> INR N * dt <= T -> T < INR (S N) * dt ->
  forall (m k fuel : nat),
    (k + m = S N)%nat -> (m < fuel)%nat ->
    FitzhughNagumo.time_loop state newton fuel dt T (INR k * dt)
      (Z.of_nat k) (FitzhughNagumo.state_after state newton dt U0 k)
      (FitzhughNagumo.entries state newton dt U0 k)
    = Return (INR (S N) * dt, Z.of_nat (S N),
              FitzhughNagumo.state_after state newton dt U0 (S N),
              FitzhughNagumo.entries state newton dt U0 (S N)).
Proof.
  intros Hdt HN HSN.
  induction m as [|m IH]; intros k fuel Hk Hfuel.
  - assert (k = S N) by lia. subst k.
    destruct fuel as [|fuel]; [lia|]. cbn [FitzhughNagumo.time_loop].
    destruct (Rle_dec (INR (S N) * dt) T) as [Hle | _]; [lra | reflexivity].
  - destruct fuel as [|fuel]; [lia|].
    cbn [FitzhughNagumo.time_loop].
    assert (HkN : INR k <= INR N) by (apply le_INR; lia).
    destruct (Rle_dec (INR k * dt) T) as [_ | Hgt].
    2:{ exfalso. apply Hgt.
        apply Rle_trans with (INR N * dt); [|exact HN].
        apply Rmult_le_compat_r; lra. }
    cbv zeta.
    replace (INR k * dt + dt) with (INR (S k) * dt)
      by (rewrite S_INR; ring).
    replace (Z.of_nat k + 1)%Z with (Z.of_nat (S k)) by lia.
    change (FitzhughNagumo.solve_single_timestep state newton
              (FitzhughNagumo.state_after state newton dt U0 k)
              (INR (S k) * dt))
      with (FitzhughNagumo.state_after state newton dt U0 (S k)).
    rewrite entries_step.
    apply IH; lia.
Qed.

Lemma fold_min_from_one (l : list nat) :
  (forall j, In j l -> (1 <= j)%nat) ->
  fold_left Z.min (map Z.of_nat l) 1%Z = 1%Z.
Proof.
  induction l as [|a l IH]; intros Hl; [reflexivity|].
  simpl. rewrite Z.min_l.
  - apply IH. intros j Hj. apply Hl. now right.
  - specialize (Hl a (or_introl eq_refl)). lia.
Qed.

Lemma fold_max_seq (k : nat) (acc : nat) :
  fold_left Z.max (map Z.of_nat (seq (S acc) k)) (Z.of_nat acc)
  = Z.of_nat (acc + k).
Proof.
  revert acc. induction k as [|k IH]; intros acc.
  - simpl. f_equal. lia.
  - simpl. rewrite Z.max_r by lia.
    change (Z.pos (Pos.of_succ_nat acc)) with (Z.of_nat (S acc)).
    rewrite IH. f_equal. lia.
Qed.

Lemma dict_get_map {V : Type} (F : nat -> V) (l : list nat) (j : nat) :
  In j l ->
  FitzhughNagumo.dict_get (map (fun i => (Z.of_nat i, F i)) l) (Z.of_nat j)
  = Some (F j).
Proof.
  induction l as [|a l IH]; intros Hin; [contradiction|].
  simpl. destruct (Z.eq_dec (Z.of_nat a) (Z.of_nat j)) as [Heq | Hne].
  - apply Nat2Z.inj in Heq. now subst a.
  - destruct Hin as [-> | Hin]; [contradiction | now apply IH].
Qed.

Lemma dict_get_missing {V : Type} (d : FitzhughNagumo.dict V) (k : Z) :
  ~ In k (FitzhughNagumo.keys d) -> FitzhughNagumo.dict_get d k = None.
Proof.
  induction d as [|[k' v'] d IH]; intros Hno; [reflexivity|].
  simpl in *. destruct (Z.eq_dec k' k) as [-> | Hne]; [tauto|].
  apply IH. tauto.
Qed.

Lemma entries_get (dt : R) (U0 : state) (K j : nat) :
  (1 <= j <= K)%nat ->
  FitzhughNagumo.dict_get
    (FitzhughNagumo.entries state newton dt U0 K) (Z.of_nat j)
  = Some (INR j * dt, FitzhughNagumo.state_after state newton dt U0 j).
Proof.
  intros Hj. unfold FitzhughNagumo.entries.
  apply (dict_get_map
           (fun i => (INR i * dt,
                      FitzhughNagumo.state_after state newton dt U0 i))).
  apply in_seq. lia.
Qed.

Lemma entries_miss (dt : R) (U0 : state) (K : nat) (n : Z) :
  ~ (1 <= n <= Z.of_nat K)%Z ->
  FitzhughNagumo.dict_get
    (FitzhughNagumo.entries state newton dt U0 K) n = None.
Proof.
  intros Hn. apply dict_get_missing. rewrite entries_keys.
  intros Hin. apply in_map_iff in Hin as [j [<- Hj]].
  apply in_seq in Hj. lia.
Qed.

Lemma entries_slider_bounds (dt : R) (U0 : state) (K : nat) :
  FitzhughNagumo.slider_bounds
    (FitzhughNagumo.entries state newton dt U0 (S K))
  = Return (1%Z, Z.of_nat (S K)).
Proof.
  unfold FitzhughNagumo.slider_bounds. rewrite entries_keys.
  change (seq 1 (S K)) with (1%nat :: seq 2 K).
  cbn [map]. change (Z.of_nat 1) with 1%Z.
  rewrite fold_min_from_one.
  - change 1%Z with (Z.of_nat 1) at 2. rewrite (fold_max_seq K 1).
    reflexivity.
  - intros j Hj. apply in_seq in Hj. lia.
Qed.

End DriverFacts.

(** X13: the time loop terminates and overshoots by one step: for a
    positive step [dt] and [N] whole steps fitting in [T]
    ([N dt <= T < (N + 1) dt]), started at [t = 0] it performs [N + 1]
    solves, at the times [dt, 2 dt, ..., (N + 1) dt], the last one beyond
    [T], and stores them under the keys [1 .. N + 1]; each solve starts
    from the result of the one before. *)
Theorem time_loop_runs_one_step_past_T :
  forall (state : Type)
         (newton : state -> list FitzhughNagumo.DirichletBC ->
                   FitzhughNagumo.expression -> state)
         (dt T : R) (N : nat) (U0 : state) (fuel : nat),
    0 < dt -> INR N * dt <= T -> T < INR (S N) * dt ->
    (S N < fuel)%nat ->
    FitzhughNagumo.time_loop state newton fuel dt T 0 0%Z U0 []
    = Return (INR (S N) * dt, Z.of_nat (S N),
              FitzhughNagumo.state_after state newton dt U0 (S N),
              FitzhughNagumo.entries state newton dt U0 (S N)).
Proof.
  intros state newton dt T N U0 fuel Hdt HN HSN Hfuel.
  pose proof (time_loop_from state newton dt T N U0 Hdt HN HSN
                (S N) 0%nat fuel eq_refl Hfuel) as Hrun.
  replace (INR 0 * dt) with 0 in Hrun by (simpl; ring).
  exact Hrun.
Qed.

Lemma INR_of_literal (n : nat) : INR n = IZR (Z.of_nat n).
Proof. apply INR_IZR_INZ. Qed.

Lemma time_loop_runs_one_step_past_T_witness :
  FitzhughNagumo.time_loop unit (fun U _ _ => U) 200 4 500 0 0%Z tt []
  = Return (INR 126 * 4, 126%Z,
            FitzhughNagumo.state_after unit (fun U _ _ => U) 4 tt 126,
            FitzhughNagumo.entries unit (fun U _ _ => U) 4 tt 126).
Proof.
  apply (time_loop_runs_one_step_past_T unit (fun U _ _ => U) 4 500 125 tt
           200).
  - lra.
  - rewrite INR_of_literal. simpl. lra.
  - rewrite INR_of_literal. simpl. lra.
  - lia.
Defined.

(** X14: after the run the slider ranges over [1 .. K], the steps that were
    solved; [plot_solution(n)] finds the time [n * dt] and the solution of
    step [n] for every [n] in that range and no entry ([KeyError]) outside
    it; with no step stored, building the slider raises [ValueError]. *)
Theorem slider_covers_exactly_the_solved_steps :
  forall (state : Type)
         (newton : state -> list FitzhughNagumo.DirichletBC ->
                   FitzhughNagumo.expression -> state)
         (dt : R) (U0 : state) (K : nat) (n : Z),
    let U_sol := FitzhughNagumo.entries state newton dt U0 (S K) in
    FitzhughNagumo.slider_bounds U_sol = Return (1%Z, Z.of_nat (S K)) /\
    ((1 <= n <= Z.of_nat (S K))%Z ->
     FitzhughNagumo.plot_solution state U_sol n
     = Some (IZR n * dt,
             FitzhughNagumo.state_after state newton dt U0 (Z.to_nat n))) /\
    (~ (1 <= n <= Z.of_nat (S K))%Z ->
     FitzhughNagumo.plot_solution state U_sol n = None) /\
    FitzhughNagumo.slider_bounds
      (FitzhughNagumo.entries state newton dt U0 0) = Raise ValueError.
Proof.
  intros state newton dt U0 K n U_sol. unfold U_sol.
  split; [apply entries_slider_bounds|]. split; [|split].
  - intros Hn. unfold FitzhughNagumo.plot_solution.
    rewrite <- (Z2Nat.id n) at 1 by lia.
    rewrite entries_get by lia.
    rewrite INR_of_literal, Z2Nat.id by lia. reflexivity.
  - intros Hn. unfold FitzhughNagumo.plot_solution.
    now apply entries_miss.
  - reflexivity.
Qed.

Lemma slider_covers_exactly_the_solved_steps_witness :
  FitzhughNagumo.plot_solution unit
    (FitzhughNagumo.entries unit (fun U _ _ => U) 4 tt 126) 38%Z
  = Some (38 * 4, FitzhughNagumo.state_after unit (fun U _ _ => U) 4 tt 38).
Proof.
  refine (proj1 (proj2 (slider_covers_exactly_the_solved_steps unit
                          (fun U _ _ => U) 4 tt 125 38%Z)) _).
  lia.
Defined.

(** ** The schedule of the notebook's run ([dt = 4]) *)

Lemma step_time_lt (k : nat) (c : Z) :
  INR k * 4 < IZR c <-> (4 * Z.of_nat k < c)%Z.
Proof.
  rewrite INR_of_literal.
  replace (IZR (Z.of_nat k) * 4) with (IZR (4 * Z.of_nat k))
    by (rewrite mult_IZR; ring).
  split; [apply lt_IZR | apply IZR_lt].
Qed.

Lemma step_time_gt (k : nat) (c : Z) :
  IZR c < INR k * 4 <-> (c < 4 * Z.of_nat k)%Z.
Proof.
  rewrite INR_of_literal.
  replace (IZR (Z.of_nat k) * 4) with (IZR (4 * Z.of_nat k))
    by (rewrite mult_IZR; ring).
  split; [apply lt_IZR | apply IZR_lt].
Qed.

(** X15: with the notebook's step [dt = 4], the Dirichlet condition is
    applied at the first step only ([t = 4]) and the stimulus at step 38
    only ([t = 152]). *)
Theorem notebook_run_conditions_one_step_each :
  forall k : nat,
    (1 <= k)%nat ->
    let bcs := fst (FitzhughNagumo.BC_U_and_stim (INR k * 4)) in
    let stim := snd (FitzhughNagumo.BC_U_and_stim (INR k * 4)) in
    (bcs <> [] <-> k = 1%nat) /\
    ((exists x, FitzhughNagumo.eval stim x <> 0) <-> k = 38%nat).
Proof.
  intros k Hk bcs stim. unfold bcs, stim.
  pose proof (step_time_lt k 6) as H6.
  pose proof (step_time_gt k 150) as H150.
  pose proof (step_time_lt k 156) as H156.
  destruct (BC_U_and_stim_cases (INR k * 4))
    as [[Ht ->] | [[Ht ->] | [Ht [Hn ->]]]]; cbn [fst snd].
  - apply H6 in Ht. split.
    + split; [intros _; lia | discriminate].
    + split; [intros [x Hx]; now elim Hx | lia].
  - destruct Ht as [Ha Hb]. apply H150 in Ha. apply H156 in Hb. split.
    + split; [intros H; now elim H | lia].
    + split; [intros _; lia|].
      intros _. exists (0, 0).
      destruct (stimulus_eval (8 / 10) (0, 0)) as [[_ [_ ->]] | [Hno _]].
      * lra.
      * exfalso. apply Hno. simpl. lra.
  - split.
    + split; [intros H; now elim H|].
      intros ->. exfalso.
      assert (INR 1 * 4 < 6) by (apply H6; lia). lra.
    + split; [intros [x Hx]; now elim Hx|].
      intros ->. exfalso. apply Hn. split.
      * apply H150. lia.
      * apply H156. lia.
Qed.

Lemma notebook_run_conditions_one_step_each_witness :
  (exists x,
      FitzhughNagumo.eval
        (snd (FitzhughNagumo.BC_U_and_stim (INR 38 * 4))) x <> 0)
  <-> 38%nat = 38%nat.
Proof.
  refine (proj2 (notebook_run_conditions_one_step_each 38 _)). lia.
Defined.
